(** * Tennis court scheduler: player statistics, notifications, bookings

    A shallow embedding of the three TypeScript components of the
    scheduler (PlayerStats.tsx, EmailNotifications.tsx, App.tsx) and the
    properties of their aggregation, validation and booking handlers.

    Conventions of the embedding:
    - a JavaScript string is the list of its UTF-16 code units;
    - a JavaScript [number] that only ever holds an integer (counters,
      court numbers, lengths) is a [Z];
    - a JavaScript [Map] is an association list in insertion order,
      because [Map.prototype.forEach] and [values()] iterate in that order;
    - React state is an explicit record; a handler maps the state before
      the call to the state after it. *)

From Stdlib Require Import ZArith NArith List Lia Bool String Ascii.
From Stdlib Require Import Sorted Permutation DecimalString.
Import ListNotations.
Open Scope Z_scope.

(* ================================================================= *)
(** ** JavaScript strings *)

Module Js.

Definition jsstring := list N.

(** ASCII literal to code units, for readable examples. *)
Definition lit (s : string) : jsstring :=
  map N_of_ascii (list_ascii_of_string s).

Fixpoint str_eqb (a b : jsstring) : bool :=
  match a, b with
  | [], [] => true
  | x :: a', y :: b' => N.eqb x y && str_eqb a' b'
  | _, _ => false
  end.

(** ECMAScript WhiteSpace and LineTerminator code points: the set that
    [String.prototype.trim] strips and that the regex class [\s] matches. *)
Definition isWhiteSpace (c : N) : bool :=
  (N.leb 9 c && N.leb c 13)                (* TAB LF VT FF CR *)
  || N.eqb c 32 || N.eqb c 160             (* SP, NBSP *)
  || N.eqb c 5760                          (* U+1680 *)
  || (N.leb 8192 c && N.leb c 8202)        (* U+2000 .. U+200A *)
  || N.eqb c 8232 || N.eqb c 8233          (* LS, PS *)
  || N.eqb c 8239 || N.eqb c 8287          (* U+202F, U+205F *)
  || N.eqb c 12288 || N.eqb c 65279.       (* U+3000, U+FEFF *)

Fixpoint trimStart (s : jsstring) : jsstring :=
  match s with
  | [] => []
  | c :: r => if isWhiteSpace c then trimStart r else s
  end.

Definition trimEnd (s : jsstring) : jsstring := rev (trimStart (rev s)).

Definition trim (s : jsstring) : jsstring := trimEnd (trimStart s).

(** ToBoolean on a string: only the empty string is falsy. *)
Definition truthy (s : jsstring) : bool :=
  match s with [] => false | _ :: _ => true end.

(** [Array.prototype.includes] on an array of strings. *)
Definition includes (l : list jsstring) (x : jsstring) : bool :=
  existsb (fun y => str_eqb y x) l.

(** [Number.prototype.toString] on an integer: decimal digits, with a
    leading minus sign below zero. *)
Definition Number_toString (n : Z) : jsstring :=
  match n with
  | Zneg p => lit "-" ++ lit (NilZero.string_of_uint (Pos.to_uint p))
  | _ => lit (NilZero.string_of_uint (N.to_uint (Z.to_N n)))
  end.

End Js.
Import Js.

(* ================================================================= *)
(** ** JavaScript Map, in insertion order *)

Module JsMap.
Section Defs.
Context {K V : Type} (eqb : K -> K -> bool).

Definition t := list (K * V).

Fixpoint get (m : t) (k : K) : option V :=
    match m with
    | [] => None
    | (k', v) :: r => if eqb k' k then Some v else get r k
    end.

  (** [set] on a present key replaces the value and keeps the entry's
      position; a new key is appended. *)
Fixpoint set (m : t) (k : K) (v : V) : t :=
    match m with
    | [] => [(k, v)]
    | (k', v') :: r =>
        if eqb k' k then (k', v) :: r else (k', v') :: set r k v
    end.

Definition keys (m : t) : list K := map fst m.
Definition values (m : t) : list V := map snd m.
End Defs.
End JsMap.

(* ================================================================= *)
(** ** The Date constructor on date-only strings *)

Module JsDate.

Definition digit (c : N) : option Z :=
  if (N.leb 48 c && N.leb c 57)%bool then Some (Z.of_N c - 48) else None.

Definition InLeapYear (y : Z) : bool :=
  if negb (y mod 4 =? 0) then false
  else if negb (y mod 100 =? 0) then true
  else if negb (y mod 400 =? 0) then false
  else true.

Definition DaysInYear (y : Z) : Z := if InLeapYear y then 366 else 365.

(** ECMAScript DayFromYear: day number of 1 January of year [y],
    relative to 1 January 1970. *)
Definition DayFromYear (y : Z) : Z :=
  365 * (y - 1970) + (y - 1969) / 4 - (y - 1901) / 100 + (y - 1601) / 400.

Definition DaysInMonth (y m : Z) : Z :=
  match m with
  | 1 => 31 | 2 => if InLeapYear y then 29 else 28 | 3 => 31 | 4 => 30
  | 5 => 31 | 6 => 30 | 7 => 31 | 8 => 31 | 9 => 30 | 10 => 31
  | 11 => 30 | 12 => 31 | _ => 0
  end.

(** Days of the year before the first of month [m]. *)
Definition DaysBeforeMonth (y m : Z) : Z :=
  let leap := if InLeapYear y then 1 else 0 in
  match m with
  | 1 => 0 | 2 => 31 | 3 => 59 + leap | 4 => 90 + leap | 5 => 120 + leap
  | 6 => 151 + leap | 7 => 181 + leap | 8 => 212 + leap | 9 => 243 + leap
  | 10 => 273 + leap | 11 => 304 + leap | 12 => 334 + leap | _ => 0
  end.

Definition msPerDay : Z := 86400000.

Record civil := { year : Z; month : Z; day : Z }.

Definition validCivil (c : civil) : bool :=
  (0 <=? year c) && (year c <=? 9999) &&
  (1 <=? month c) && (month c <=? 12) &&
  (1 <=? day c) && (day c <=? DaysInMonth (year c) (month c)).

(** The date-only form [YYYY-MM-DD] of the ECMAScript date-time string
    format: the form that [<input type="date">] and
    [toISOString().split('T')[0]] produce, which is how the application
    writes [Booking.date].  Any other string, and any out-of-range field,
    is [None]. *)
Definition parseCivil (s : jsstring) : option civil :=
  match s with
  | [y1; y2; y3; y4; h1; m1; m2; h2; d1; d2] =>
      match digit y1, digit y2, digit y3, digit y4,
            digit m1, digit m2, digit d1, digit d2 with
      | Some a, Some b, Some c, Some d, Some e, Some f, Some g, Some h =>
          let c := {| year := 1000 * a + 100 * b + 10 * c + d;
                      month := 10 * e + f;
                      day := 10 * g + h |} in
          if N.eqb h1 45 && N.eqb h2 45 && validCivil c
          then Some c else None
      | _, _, _, _, _, _, _, _ => None
      end
  | _ => None
  end.

(** Time value (milliseconds since the epoch, UTC midnight of the day). *)
Definition timeOfCivil (c : civil) : Z :=
  (DayFromYear (year c) + DaysBeforeMonth (year c) (month c) + (day c - 1))
  * msPerDay.

(** [new Date(s).valueOf()]; [None] is NaN (Invalid Date). *)
Definition Date_value (s : jsstring) : option Z :=
  option_map timeOfCivil (parseCivil s).

(** [new Date(a) > new Date(b)]: a comparison with NaN is false. *)
Definition Date_gt (a b : jsstring) : bool :=
  match Date_value a, Date_value b with
  | Some x, Some y => y <? x
  | _, _ => false
  end.

(** Calendar order on (year, month, day). *)
Definition civil_lt (a b : civil) : Prop :=
  year a < year b \/
  (year a = year b /\ (month a < month b \/
                       (month a = month b /\ day a < day b))).

Definition civil_le (a b : civil) : Prop := civil_lt a b \/ a = b.

End JsDate.
Import JsDate.

(* ================================================================= *)
(** ** Array.prototype.sort *)

(** The engine's sort is stable and is given a consistent comparator, so
    its result is the one any stable sort computes; insertion from the
    right is the model.  [cmp a b <= 0] keeps [a] before [b]. *)
Section Sort.
Context {A : Type} (cmp : A -> A -> Z).

Fixpoint sort_insert (x : A) (l : list A) : list A :=
    match l with
    | [] => [x]
    | y :: r => if cmp x y <=? 0 then x :: y :: r else y :: sort_insert x r
    end.

Fixpoint Array_sort (l : list A) : list A :=
    match l with
    | [] => []
    | x :: r => sort_insert x (Array_sort r)
    end.
End Sort.

(* ================================================================= *)
(** ** Shared data model *)

Inductive BookingType := singles | doubles.

Record Booking := {
  id : jsstring;
  court : Z;
  timeSlot : jsstring;
  players : list jsstring;
  type : BookingType;
  date : jsstring
}.

(* ================================================================= *)
(** ** PlayerStats.tsx *)

Module PlayerStats.

Record PlayerStat := {
  name : jsstring;
  totalMatches : Z;
  singlesMatches : Z;
  doublesMatches : Z;
  totalHours : Z;
  favoriteCourt : Z;
  lastPlayed : jsstring
}.

Definition statsMap_t := @JsMap.t jsstring PlayerStat.
Definition courtCounts_t := @JsMap.t Z Z.

Definition matchDuration (booking : Booking) : Z :=
  match type booking with singles => 1 | doubles => 2 end.

(** Body of the inner [booking.players.forEach]. *)
Definition processPlayer (booking : Booking) (statsMap : statsMap_t)
    (playerName : jsstring) : statsMap_t :=
  if negb (truthy (trim playerName)) then statsMap
  else
    let existing :=
      match JsMap.get str_eqb statsMap playerName with
      | Some s => s
      | None => {| name := playerName;
                   totalMatches := 0;
                   singlesMatches := 0;
                   doublesMatches := 0;
                   totalHours := 0;
                   favoriteCourt := 1;
                   lastPlayed := date booking |}
      end in
    let updated :=
      {| name := name existing;
         totalMatches := totalMatches existing + 1;
         singlesMatches :=
           match type booking with
           | singles => singlesMatches existing + 1
           | doubles => singlesMatches existing
           end;
         doublesMatches :=
           match type booking with
           | singles => doublesMatches existing
           | doubles => doublesMatches existing + 1
           end;
         totalHours := totalHours existing + matchDuration booking;
         favoriteCourt := favoriteCourt existing;
         lastPlayed :=
           if Date_gt (date booking) (lastPlayed existing)
           then date booking else lastPlayed existing |} in
    JsMap.set str_eqb statsMap playerName updated.

(** Body of the outer [bookings.forEach] of the first pass. *)
Definition processBooking (statsMap : statsMap_t) (booking : Booking)
    : statsMap_t :=
  fold_left (processPlayer booking) (players booking) statsMap.

Definition groupingPass (bookings : list Booking) : statsMap_t :=
  fold_left processBooking bookings [].

(** Body of the [bookings.forEach] of the second pass. *)
Definition tallyBooking (playerName : jsstring) (courtCounts : courtCounts_t)
    (booking : Booking) : courtCounts_t :=
  if includes (players booking) playerName then
    JsMap.set Z.eqb courtCounts (court booking)
      (match JsMap.get Z.eqb courtCounts (court booking) with
       | Some n => n
       | None => 0
       end + 1)
  else courtCounts.

Definition tallyCourts (bookings : list Booking) (playerName : jsstring)
    : courtCounts_t :=
  fold_left (tallyBooking playerName) bookings [].

(** The [courtCounts.forEach] loop over [(maxCount, favoriteCourt)]. *)
Definition pickStep (acc : Z * Z) (entry : Z * Z) : Z * Z :=
  let '(maxCount, favoriteCourt) := acc in
  let '(court, count) := entry in
  if maxCount <? count then (count, court) else (maxCount, favoriteCourt).

Definition pickFavorite (courtCounts : courtCounts_t) : Z :=
  snd (fold_left pickStep courtCounts (0, 1)).

Definition setFavorite (bookings : list Booking)
    (entry : jsstring * PlayerStat) : jsstring * PlayerStat :=
  let '(playerName, stats) := entry in
  (playerName,
   {| name := name stats;
      totalMatches := totalMatches stats;
      singlesMatches := singlesMatches stats;
      doublesMatches := doublesMatches stats;
      totalHours := totalHours stats;
      favoriteCourt := pickFavorite (tallyCourts bookings playerName);
      lastPlayed := lastPlayed stats |}).

Definition favoritePass (bookings : list Booking) (statsMap : statsMap_t)
    : statsMap_t :=
  map (setFavorite bookings) statsMap.

Definition byTotalMatchesDesc (a b : PlayerStat) : Z :=
  totalMatches b - totalMatches a.

(** The value handed to [setPlayerStats]. *)
Definition calculatePlayerStats (bookings : list Booking) : list PlayerStat :=
  Array_sort byTotalMatchesDesc
    (JsMap.values (favoritePass bookings (groupingPass bookings))).

End PlayerStats.

(* ================================================================= *)
(** ** Regular expressions (the fragment the source uses) *)

Module Regex.

Inductive re :=
| Never
| Empty
| Class (p : N -> bool)
| Seq (a b : re)
| Alt (a b : re)
| Star (a : re).

(** [a+] *)
Definition Plus (a : re) : re := Seq a (Star a).

(** Language of a regular expression. *)
Inductive lang : re -> jsstring -> Prop :=
| lang_Empty : lang Empty []
| lang_Class p c : p c = true -> lang (Class p) [c]
| lang_Seq a b s1 s2 : lang a s1 -> lang b s2 -> lang (Seq a b) (s1 ++ s2)
| lang_Alt_l a b s : lang a s -> lang (Alt a b) s
| lang_Alt_r a b s : lang b s -> lang (Alt a b) s
| lang_Star_nil a : lang (Star a) []
| lang_Star_cons a s1 s2 :
    lang a s1 -> lang (Star a) s2 -> lang (Star a) (s1 ++ s2).

Fixpoint nullable (r : re) : bool :=
  match r with
  | Never => false
  | Empty => true
  | Class _ => false
  | Seq a b => nullable a && nullable b
  | Alt a b => nullable a || nullable b
  | Star _ => true
  end.

Fixpoint deriv (c : N) (r : re) : re :=
  match r with
  | Never => Never
  | Empty => Never
  | Class p => if p c then Empty else Never
  | Seq a b =>
      if nullable a then Alt (Seq (deriv c a) b) (deriv c b)
      else Seq (deriv c a) b
  | Alt a b => Alt (deriv c a) (deriv c b)
  | Star a => Seq (deriv c a) (Star a)
  end.

(** [/^r$/.test(s)]: the whole string is in the language of [r]. *)
Fixpoint test (r : re) (s : jsstring) : bool :=
  match s with
  | [] => nullable r
  | c :: s' => test (deriv c r) s'
  end.

End Regex.

(* ================================================================= *)
(** ** EmailNotifications.tsx *)

Module EmailNotifications.

Record EmailTemplate := { subject : jsstring; message : jsstring }.

Inductive SendStatus := idle | success | error.

Record State := {
  isOpen : bool;
  emailAddresses : list jsstring;
  emailTemplate : EmailTemplate;
  isSending : bool;
  sendStatus : SendStatus;
  errorMessage : jsstring
}.

(** Argument of [blink.notifications.email]. *)
Module Mail.
Record options := {
    to : jsstring;
    subject : jsstring;
    html : jsstring;
    text : jsstring
  }.
End Mail.

(** Outcome of one promise under [Promise.allSettled]. *)
Inductive PromiseStatus := fulfilled | rejected.

(** How a call of [blink.notifications.email] completes: it throws, or it
    returns a promise, which settles as given. *)
Inductive CallOutcome := throws | returns (p : PromiseStatus).

(** How a call of the [onEmailSent] prop completes. *)
Inductive Completion := normal | abrupt.

(** What a call leaves behind outside the component state.  A timer
    carries its callback, which acts on the state when it fires. *)
Inductive Effect :=
| NotifyEmail (o : Mail.options)   (* blink.notifications.email(o) *)
| OnEmailSent                      (* onEmailSent?.() with the prop given *)
| SetTimeout (ms : Z) (callback : State -> State).

Definition setErrorMessage (v : jsstring) (st : State) : State :=
  {| isOpen := isOpen st; emailAddresses := emailAddresses st;
     emailTemplate := emailTemplate st; isSending := isSending st;
     sendStatus := sendStatus st; errorMessage := v |}.

Definition setSendStatus (v : SendStatus) (st : State) : State :=
  {| isOpen := isOpen st; emailAddresses := emailAddresses st;
     emailTemplate := emailTemplate st; isSending := isSending st;
     sendStatus := v; errorMessage := errorMessage st |}.

Definition setIsSending (v : bool) (st : State) : State :=
  {| isOpen := isOpen st; emailAddresses := emailAddresses st;
     emailTemplate := emailTemplate st; isSending := v;
     sendStatus := sendStatus st; errorMessage := errorMessage st |}.

Definition setIsOpen (v : bool) (st : State) : State :=
  {| isOpen := v; emailAddresses := emailAddresses st;
     emailTemplate := emailTemplate st; isSending := isSending st;
     sendStatus := sendStatus st; errorMessage := errorMessage st |}.

(** The class [[^\s@]]. *)
Definition notSpaceAt (c : N) : bool :=
  negb (isWhiteSpace c) && negb (N.eqb c 64).

(** [/^[^\s@]+@[^\s@]+\.[^\s@]+$/] *)
Definition emailRegex : Regex.re :=
  Regex.Seq (Regex.Plus (Regex.Class notSpaceAt))
    (Regex.Seq (Regex.Class (N.eqb 64))
       (Regex.Seq (Regex.Plus (Regex.Class notSpaceAt))
          (Regex.Seq (Regex.Class (N.eqb 46))
             (Regex.Plus (Regex.Class notSpaceAt))))).

Definition emailOk (email : jsstring) : bool :=
  let trimmed := trim email in
  truthy trimmed && Regex.test emailRegex trimmed.

Definition validateEmails (st : State) : list jsstring :=
  filter emailOk (emailAddresses st).

(** [message.replace(/\n/g, '<br>')] *)
Definition replaceNewlines (s : jsstring) : jsstring :=
  flat_map (fun c => if N.eqb c 10 then lit "<br>" else [c]) s.

Definition mailFor (tpl : EmailTemplate) (email : jsstring) : Mail.options :=
  {| Mail.to := email;
     Mail.subject := subject tpl;
     Mail.html := replaceNewlines (message tpl);
     Mail.text := message tpl |}.

Definition isRejected (r : PromiseStatus) : bool :=
  match r with rejected => true | fulfilled => false end.

(** [validEmails.map(email => blink.notifications.email({...}))]: the
    calls are made in order, each decided by the notification service
    ([net], by position in the batch and request); a call that throws ends
    the map.  The result is the requests the service was called with and,
    when no call threw, the promises returned. *)
Fixpoint callFrom (net : nat -> Mail.options -> CallOutcome) (i : nat)
    (reqs : list Mail.options)
    : list Mail.options * option (list PromiseStatus) :=
  match reqs with
  | [] => ([], Some [])
  | r :: rest =>
      match net i r with
      | throws => ([r], None)
      | returns p =>
          let '(made, promises) := callFrom net (S i) rest in
          (r :: made, option_map (cons p) promises)
      end
  end.

(** [await Promise.allSettled(emailPromises)]: one result per promise, in
    order; a promise is given by the status it settles with. *)
Definition Promise_allSettled (promises : list PromiseStatus)
    : list PromiseStatus :=
  promises.

(** The callback handed to [setTimeout]: [setIsOpen(false)] then
    [setSendStatus('idle')]. *)
Definition closeAfterSuccess (st : State) : State :=
  setSendStatus idle (setIsOpen false st).

(** The [catch] block. *)
Definition catchBlock (st : State) : State :=
  setSendStatus error
    (setErrorMessage
       (lit "Failed to send email notifications. Please try again.") st).

(** [sendNotifications].  [onEmailSent] is the optional prop, given by how
    a call of it completes; [net] is the notification service.  The result
    is the component state when the call settles, and the effects it
    issued in order. *)
Definition sendNotifications (onEmailSent : option Completion)
    (net : nat -> Mail.options -> CallOutcome) (st : State)
    : State * list Effect :=
  let validEmails := validateEmails st in
  if Z.of_nat (List.length validEmails) =? 0 then
    (setSendStatus error
       (setErrorMessage
          (lit "Please enter at least one valid email address.") st), [])
  else if negb (truthy (trim (subject (emailTemplate st))))
          || negb (truthy (trim (message (emailTemplate st)))) then
    (setSendStatus error
       (setErrorMessage (lit "Please fill in both subject and message.") st),
     [])
  else
    let st := setErrorMessage [] (setSendStatus idle (setIsSending true st)) in
    let requests := map (mailFor (emailTemplate st)) validEmails in
    let '(made, emailPromises) := callFrom net 0 requests in
    let sent := map NotifyEmail made in
    match emailPromises with
    | None =>
        (* a send call threw: catch, then finally *)
        (setIsSending false (catchBlock st), sent)
    | Some promises =>
        let results := Promise_allSettled promises in
        let failedEmails := filter isRejected results in
        if Z.of_nat (List.length failedEmails) =? 0 then
          let st := setSendStatus success st in
          match onEmailSent with
          | Some abrupt =>
              (* the callback threw: catch, then finally *)
              (setIsSending false (catchBlock st), sent ++ [OnEmailSent])
          | Some normal =>
              (setIsSending false st,
               sent ++ [OnEmailSent] ++ [SetTimeout 2000 closeAfterSuccess])
          | None =>
              (setIsSending false st,
               sent ++ [SetTimeout 2000 closeAfterSuccess])
          end
        else
          (setIsSending false
             (setSendStatus error
                (setErrorMessage
                   (lit "Failed to send "
                      ++ Number_toString (Z.of_nat (List.length failedEmails))
                      ++ lit " out of "
                      ++ Number_toString (Z.of_nat (List.length validEmails))
                      ++ lit " emails.") st)),
           sent)
    end.

End EmailNotifications.

(* ================================================================= *)
(** ** App.tsx *)

Module App.

Module Editing.
Record t := { court : Z; timeSlot : jsstring; type : BookingType }.
End Editing.

Record State := {
  bookings : list Booking;
  selectedDate : jsstring;
  isDialogOpen : bool;
  editingBooking : option Editing.t;
  playerInputs : list jsstring
}.

(** [b.court === editingBooking.court && b.timeSlot === editingBooking.timeSlot] *)
Definition atCell (e : Editing.t) (b : Booking) : bool :=
  (court b =? Editing.court e) && str_eqb (timeSlot b) (Editing.timeSlot e).

(** State after the three trailing setters shared by both handlers. *)
Definition closeDialog (bs : list Booking) (st : State) : State :=
  {| bookings := bs;
     selectedDate := selectedDate st;
     isDialogOpen := false;
     editingBooking := None;
     playerInputs := [[]; []; []; []] |}.

(** [handleSaveBooking]; [now] is the value of [Date.now()]. *)
Definition handleSaveBooking (now : Z) (st : State) : State :=
  match editingBooking st with
  | None => st
  | Some editing =>
      let filteredPlayers :=
        filter (fun p => truthy (trim p)) (playerInputs st) in
      if Z.of_nat (List.length filteredPlayers) =? 0 then
        closeDialog
          (filter (fun b => negb (atCell editing b)) (bookings st)) st
      else
        let newBooking :=
          {| id := Number_toString (Editing.court editing) ++ lit "-"
                     ++ Editing.timeSlot editing ++ lit "-"
                     ++ Number_toString now;
             court := Editing.court editing;
             timeSlot := Editing.timeSlot editing;
             players := filteredPlayers;
             type := Editing.type editing;
             date := selectedDate st |} in
        let filtered :=
          filter (fun b => negb (atCell editing b)) (bookings st) in
        closeDialog (filtered ++ [newBooking]) st
  end.

Definition handleDeleteBooking (st : State) : State :=
  match editingBooking st with
  | None => st
  | Some editing =>
      closeDialog
        (filter (fun b => negb (atCell editing b)) (bookings st)) st
  end.

End App.

(* ================================================================= *)
(** ** Date fields in local time *)

Module JsDateFields.

(** ECMAScript Day and WeekDay (day 0, 1 January 1970, was a Thursday). *)
Definition Day (t : Z) : Z := t / msPerDay.

Definition WeekDay (t : Z) : Z := (Day t + 4) mod 7.

(** The largest year whose first day is not after day [d].  It is one of
    the estimate from the 400-year cycle of 146097 days and its two
    neighbours. *)
Definition YearFromDay (d : Z) : Z :=
  let a := 1970 + (400 * d) / 146097 in
  if DayFromYear (a + 1) <=? d then a + 1
  else if DayFromYear a <=? d then a
  else a - 1.

Definition YearFromTime (t : Z) : Z := YearFromDay (Day t).

Definition DayWithinYear (t : Z) : Z := Day t - DayFromYear (YearFromTime t).

Definition MonthFromTime (t : Z) : Z :=
  let d := DayWithinYear t in
  let leap := if InLeapYear (YearFromTime t) then 1 else 0 in
  if d <? 31 then 0
  else if d <? 59 + leap then 1
  else if d <? 90 + leap then 2
  else if d <? 120 + leap then 3
  else if d <? 151 + leap then 4
  else if d <? 181 + leap then 5
  else if d <? 212 + leap then 6
  else if d <? 243 + leap then 7
  else if d <? 273 + leap then 8
  else if d <? 304 + leap then 9
  else if d <? 334 + leap then 10
  else 11.

(** LocalTime: [LocalTZA t] is the host's offset from UTC, in
    milliseconds, in force at time [t]. *)
Definition LocalTime (LocalTZA : Z -> Z) (t : Z) : Z := t + LocalTZA t.

(** [new Date(s).getDay()] and [new Date(s).getMonth()]; [None] is NaN. *)
Definition getDay (LocalTZA : Z -> Z) (s : jsstring) : option Z :=
  option_map (fun t => WeekDay (LocalTime LocalTZA t)) (Date_value s).

Definition getMonth (LocalTZA : Z -> Z) (s : jsstring) : option Z :=
  option_map (fun t => MonthFromTime (LocalTime LocalTZA t)) (Date_value s).

End JsDateFields.

(* ================================================================= *)
(** ** PlayerStats.tsx: the summary figures *)

Module PlayerStatsSummary.

Definition getTopPlayers (playerStats : list PlayerStats.PlayerStat)
    : list PlayerStats.PlayerStat :=
  firstn 5 playerStats.

Record TotalStats := {
  totalPlayers : Z;
  totalMatches : Z;
  totalHours : Z;
  avgMatchesPerPlayer : jsstring
}.

(** [getTotalStats].  [toFixed1 a b] stands for [(a / b).toFixed(1)], a
    floating-point division and its decimal rendering, on the integers
    [a] and [b > 0]. *)
Definition getTotalStats (toFixed1 : Z -> Z -> jsstring)
    (playerStats : list PlayerStats.PlayerStat) : TotalStats :=
  {| totalPlayers := Z.of_nat (List.length playerStats);
     totalMatches :=
       fold_left (fun sum p => sum + PlayerStats.totalMatches p)
         playerStats 0;
     totalHours :=
       fold_left (fun sum p => sum + PlayerStats.totalHours p)
         playerStats 0;
     avgMatchesPerPlayer :=
       if 0 <? Z.of_nat (List.length playerStats) then
         toFixed1
           (fold_left (fun sum p => sum + PlayerStats.totalMatches p)
              playerStats 0)
           (Z.of_nat (List.length playerStats))
       else lit "0" |}.

End PlayerStatsSummary.

(* ================================================================= *)
(** ** EmailNotifications.tsx: the address fields *)

Module EmailFields.

Definition setEmailAddresses (v : list jsstring)
    (st : EmailNotifications.State) : EmailNotifications.State :=
  {| EmailNotifications.isOpen := EmailNotifications.isOpen st;
     EmailNotifications.emailAddresses := v;
     EmailNotifications.emailTemplate := EmailNotifications.emailTemplate st;
     EmailNotifications.isSending := EmailNotifications.isSending st;
     EmailNotifications.sendStatus := EmailNotifications.sendStatus st;
     EmailNotifications.errorMessage := EmailNotifications.errorMessage st |}.

(** [arr.filter((_, i) => i !== index)], with [i] counted from [from]. *)
Fixpoint dropIndexFrom (from index : nat) (arr : list jsstring)
    : list jsstring :=
  match arr with
  | [] => []
  | x :: r =>
      if Nat.eqb from index then dropIndexFrom (S from) index r
      else x :: dropIndexFrom (S from) index r
  end.

Definition addEmailField (st : EmailNotifications.State)
    : EmailNotifications.State :=
  setEmailAddresses (EmailNotifications.emailAddresses st ++ [[]]) st.

Definition removeEmailField (index : nat) (st : EmailNotifications.State)
    : EmailNotifications.State :=
  if (1 <? List.length (EmailNotifications.emailAddresses st))%nat then
    setEmailAddresses
      (dropIndexFrom 0 index (EmailNotifications.emailAddresses st)) st
  else st.

(** [updated[index] = value] on a copy of the array: an index inside the
    array replaces the element, the index one past the end appends.  A
    larger index would leave holes, which [string[]] does not describe:
    that case is [None]. *)
Definition updateEmailAddress (index : nat) (value : jsstring)
    (st : EmailNotifications.State) : option EmailNotifications.State :=
  let updated := EmailNotifications.emailAddresses st in
  if (index <=? List.length updated)%nat then
    Some (setEmailAddresses
            (firstn index updated ++ value :: skipn (S index) updated) st)
  else None.

End EmailFields.

(* ================================================================= *)
(** ** App.tsx: the schedule grid *)

Module AppGrid.

(** [isValidBookingDate]; [LocalTZA] is the host's time zone. *)
Definition isValidBookingDate (LocalTZA : Z -> Z) (dateStr : jsstring)
    : bool :=
  match JsDateFields.getDay LocalTZA dateStr,
        JsDateFields.getMonth LocalTZA dateStr with
  | Some dayOfWeek, Some m =>
      let month := m + 1 in
      if negb (dayOfWeek =? 0) then false
      else (9 <=? month) || (month <=? 4)
  | _, _ => false   (* NaN !== 0 *)
  end.

Definition getBooking (st : App.State) (c : Z) (t : jsstring)
    : option Booking :=
  find (fun b => (court b =? c) && str_eqb (timeSlot b) t) (App.bookings st).

Definition expectedLength (ty : BookingType) : nat :=
  match ty with singles => 2%nat | doubles => 4%nat end.

Definition handleCellClick (LocalTZA : Z -> Z) (c : Z) (t : jsstring)
    (ty : BookingType) (st : App.State) : App.State :=
  if negb (isValidBookingDate LocalTZA (App.selectedDate st)) then st
  else
    let inputs :=
      match getBooking st c t with
      | Some existing =>
          players existing
            ++ repeat [] (expectedLength ty - List.length (players existing))
      | None =>
          match ty with
          | singles => [[]; []]
          | doubles => [[]; []; []; []]
          end
      end in
    {| App.bookings := App.bookings st;
       App.selectedDate := App.selectedDate st;
       App.isDialogOpen := true;
       App.editingBooking :=
         Some {| App.Editing.court := c;
                 App.Editing.timeSlot := t;
                 App.Editing.type := ty |};
       App.playerInputs := inputs |}.

Definition clearAllBookings (st : App.State) : App.State :=
  {| App.bookings := [];
     App.selectedDate := App.selectedDate st;
     App.isDialogOpen := App.isDialogOpen st;
     App.editingBooking := App.editingBooking st;
     App.playerInputs := App.playerInputs st |}.

End AppGrid.

(* ================================================================= *)
(** ** Vocabulary of the statements *)

Module Vocab.

(** A player entry that the blank-name filter drops. *)
Definition isBlank (s : jsstring) : bool := negb (truthy (trim s)).

(** Number of entries of a players list equal to [n]. *)
Definition countName (n : jsstring) (ps : list jsstring) : Z :=
  Z.of_nat (List.length (filter (fun p => str_eqb p n) ps)).

(** Number of player entries equal to [n] over a booking collection. *)
Fixpoint entryCount (n : jsstring) (bs : list Booking) : Z :=
  match bs with
  | [] => 0
  | b :: r => countName n (players b) + entryCount n r
  end.

(** Courts of the bookings whose players list contains [n], in input
    order. *)
Definition courtsOf (bs : list Booking) (n : jsstring) : list Z :=
  map court (filter (fun b => includes (players b) n) bs).

Definition occ (c : Z) (cs : list Z) : Z :=
  Z.of_nat (List.length (filter (Z.eqb c) cs)).

(** [fav] occurs most often in [cs], and among the values that occur as
    often it is the one met first: every value met before the first
    occurrence of [fav] occurs strictly less often. *)
Definition firstMostFrequent (cs : list Z) (fav : Z) : Prop :=
  (forall c, occ c cs <= occ fav cs) /\
  exists before after,
    cs = before ++ fav :: after /\
    ~ In fav before /\
    forall c, In c before -> occ c cs < occ fav cs.

(** Descending by [totalMatches], every earlier record against every
    later one. *)
Definition sortedDesc (l : list PlayerStats.PlayerStat) : Prop :=
  StronglySorted
    (fun a b => PlayerStats.totalMatches a >= PlayerStats.totalMatches b) l.

Definition sumZ (l : list Z) : Z := fold_right Z.add 0 l.

(** The shape [local@domain.tld]: three non-empty runs free of white
    space and of [@], joined by one [@] and a [.]. *)
Definition emailShape (s : jsstring) : Prop :=
  exists l d t,
    s = l ++ [64%N] ++ d ++ [46%N] ++ t /\
    l <> [] /\ d <> [] /\ t <> [] /\
    Forall (fun c => EmailNotifications.notSpaceAt c = true) (l ++ d ++ t).

(** The blink.notifications.email calls among the effects of a run. *)
Definition sends (log : list EmailNotifications.Effect)
    : list EmailNotifications.Mail.options :=
  flat_map (fun e => match e with
                     | EmailNotifications.NotifyEmail o => [o]
                     | _ => []
                     end) log.

Definition failures (rs : list EmailNotifications.PromiseStatus) : Z :=
  Z.of_nat (List.length (filter EmailNotifications.isRejected rs)).

(** Number of bookings stored for the cell (court, timeSlot). *)
Definition cellCount (bs : list Booking) (c : Z) (t : jsstring) : Z :=
  Z.of_nat (List.length
    (filter (fun b => (court b =? c) && str_eqb (timeSlot b) t) bs)).

Definition atMostOnePerCell (bs : list Booking) : Prop :=
  forall c t, cellCount bs c t <= 1.

(** The record the first pass stores for [playerName] when it meets the
    player in [booking], from the record found under the key (if any):
    the body of [processPlayer] between the blank-name guard and the
    [statsMap.set]. *)
Definition accumulate (booking : Booking) (playerName : jsstring)
    (found : option PlayerStats.PlayerStat) : PlayerStats.PlayerStat :=
  let existing :=
    match found with
    | Some s => s
    | None => {| PlayerStats.name := playerName;
                 PlayerStats.totalMatches := 0;
                 PlayerStats.singlesMatches := 0;
                 PlayerStats.doublesMatches := 0;
                 PlayerStats.totalHours := 0;
                 PlayerStats.favoriteCourt := 1;
                 PlayerStats.lastPlayed := date booking |}
    end in
  {| PlayerStats.name := PlayerStats.name existing;
     PlayerStats.totalMatches := PlayerStats.totalMatches existing + 1;
     PlayerStats.singlesMatches :=
       match type booking with
       | singles => PlayerStats.singlesMatches existing + 1
       | doubles => PlayerStats.singlesMatches existing
       end;
     PlayerStats.doublesMatches :=
       match type booking with
       | singles => PlayerStats.doublesMatches existing
       | doubles => PlayerStats.doublesMatches existing + 1
       end;
     PlayerStats.totalHours :=
       PlayerStats.totalHours existing + PlayerStats.matchDuration booking;
     PlayerStats.favoriteCourt := PlayerStats.favoriteCourt existing;
     PlayerStats.lastPlayed :=
       if Date_gt (date booking) (PlayerStats.lastPlayed existing)
       then date booking else PlayerStats.lastPlayed existing |}.

(** The bookings that feed the record of [n], one copy per entry of the
    players list equal to [n], in scan order. *)
Definition contributions (n : jsstring) (bs : list Booking) : list Booking :=
  flat_map
    (fun b => map (fun _ => b) (filter (fun p => str_eqb p n) (players b)))
    bs.

Definition summarizeFrom (n : jsstring) (cs : list Booking)
    (found : option PlayerStats.PlayerStat)
    : option PlayerStats.PlayerStat :=
  fold_left (fun acc b => Some (accumulate b n acc)) cs found.

(** The record of the second pass from the record of the first. *)
Definition withFavorite (bs : list Booking) (s : PlayerStats.PlayerStat)
    : PlayerStats.PlayerStat :=
  snd (PlayerStats.setFavorite bs (PlayerStats.name s, s)).

Definition totalOf (o : option PlayerStats.PlayerStat) : Z :=
  match o with Some s => PlayerStats.totalMatches s | None => 0 end.

Definition hoursOf (o : option PlayerStats.PlayerStat) : Z :=
  match o with Some s => PlayerStats.totalHours s | None => 0 end.

Definition countOf (m : PlayerStats.courtCounts_t) (c : Z) : Z :=
  match JsMap.get Z.eqb m c with Some n => n | None => 0 end.

(** The second pass's update of the tally on one qualifying court. *)
Definition tallyCourt (m : PlayerStats.courtCounts_t) (c : Z)
    : PlayerStats.courtCounts_t :=
  JsMap.set Z.eqb m c (countOf m c + 1).

(** Day of the year, from 0. *)
Definition dayInYear (c : civil) : Z :=
  DaysBeforeMonth (year c) (month c) + (day c - 1).

(** [d] is the date of a booking of [bs] whose players list contains [n],
    and no such booking has a later calendar date. *)
Definition latestDateOf (bs : list Booking) (n : jsstring) (d : jsstring)
    : Prop :=
  exists c,
    parseCivil d = Some c /\
    (exists b, In b bs /\ In n (players b) /\ date b = d) /\
    forall b, In b bs -> In n (players b) ->
      exists cb, parseCivil (date b) = Some cb /\ civil_le cb c.

(** Every booking date is a calendar date in the form [YYYY-MM-DD]. *)
Definition datesWellFormed (bs : list Booking) : Prop :=
  forall b, In b bs -> parseCivil (date b) <> None.

(** The requests [sendNotifications] builds for the state [st]. *)
Definition requestsOf (st : EmailNotifications.State)
    : list EmailNotifications.Mail.options :=
  map (EmailNotifications.mailFor (EmailNotifications.emailTemplate st))
      (EmailNotifications.validateEmails st).

(** Whether every send call for [st] returns its promise. *)
Definition allCallsReturn
    (net : nat -> EmailNotifications.Mail.options
           -> EmailNotifications.CallOutcome)
    (st : EmailNotifications.State) : bool :=
  match snd (EmailNotifications.callFrom net 0 (requestsOf st)) with
  | Some _ => true
  | None => false
  end.

(** The outcomes [sendNotifications] awaits for the state [st]: those of
    the promises returned (none when a send call throws). *)
Definition batchResults
    (net : nat -> EmailNotifications.Mail.options
           -> EmailNotifications.CallOutcome)
    (st : EmailNotifications.State)
    : list EmailNotifications.PromiseStatus :=
  match snd (EmailNotifications.callFrom net 0 (requestsOf st)) with
  | Some promises => EmailNotifications.Promise_allSettled promises
  | None => []
  end.

(** Whether the [onEmailSent] prop was passed, and whether a call of it
    throws. *)
Definition hasCallback (onEmailSent : option EmailNotifications.Completion)
    : bool :=
  match onEmailSent with Some _ => true | None => false end.

Definition callbackThrows (onEmailSent : option EmailNotifications.Completion)
    : bool :=
  match onEmailSent with
  | Some EmailNotifications.abrupt => true
  | _ => false
  end.

(** The state after the timers a call scheduled have fired, nothing else
    having touched the state in between. *)
Definition afterTimers
    (r : EmailNotifications.State * list EmailNotifications.Effect)
    : EmailNotifications.State :=
  fold_left (fun st e => match e with
                         | EmailNotifications.SetTimeout _ callback =>
                             callback st
                         | _ => st
                         end) (snd r) (fst r).

(** The aggregate failure message for [f] failures out of [n] sends. *)
Definition failureMessage (f n : Z) : jsstring :=
  lit "Failed to send " ++ Number_toString f ++ lit " out of "
    ++ Number_toString n ++ lit " emails.".

(** The stored bookings outside the edited cell. *)
Definition withoutCell (e : App.Editing.t) (bs : list Booking)
    : list Booking :=
  filter (fun b => negb (App.atCell e b)) bs.

(** The non-blank player inputs of the dialog. *)
Definition enteredPlayers (st : App.State) : list jsstring :=
  filter (fun p => truthy (trim p)) (App.playerInputs st).

(** The non-blank player entries of a booking collection, in scan
    order. *)
Definition nonBlankEntries (bs : list Booking) : list jsstring :=
  filter (fun p => negb (isBlank p)) (flat_map players bs).

(** The distinct strings of a list, each at its first occurrence. *)
Definition seeName (acc : list jsstring) (x : jsstring) : list jsstring :=
  if includes acc x then acc else acc ++ [x].

Definition firstSeen (l : list jsstring) : list jsstring :=
  fold_left seeName l [].

(** Hours played over a collection: each booking's duration once per
    non-blank entry of its players list. *)
Definition playedHours (bs : list Booking) : Z :=
  sumZ (map (fun b =>
               PlayerStats.matchDuration b
               * Z.of_nat (List.length
                             (filter (fun p => negb (isBlank p)) (players b))))
            bs).

(** Day number of a calendar date (1 January 1970 is day 0) and its day
    of the week (0 is Sunday). *)
Definition dayNumber (c : civil) : Z := DayFromYear (year c) + dayInYear c.

Definition weekdayOf (c : civil) : Z := (dayNumber c + 4) mod 7.

(** September to April. *)
Definition inSeason (m : Z) : bool := (9 <=? m) || (m <=? 4).

(** Stored bookings hold at least one player and no blank name. *)
Definition storedClean (bs : list Booking) : Prop :=
  Forall (fun b => players b <> [] /\
                   forallb (fun p => negb (isBlank p)) (players b) = true) bs.

(** Number of [@] in a string. *)
Definition countAt (s : jsstring) : Z :=
  Z.of_nat (List.length (filter (N.eqb 64) s)).

(** Whether [sendNotifications] gets past its two input checks. *)
Definition dispatches (st : EmailNotifications.State) : bool :=
  negb (Z.of_nat (List.length (EmailNotifications.validateEmails st)) =? 0)
  && negb (isBlank (EmailNotifications.subject
                      (EmailNotifications.emailTemplate st)))
  && negb (isBlank (EmailNotifications.message
                      (EmailNotifications.emailTemplate st))).

(** The booking [handleSaveBooking] builds for the edited cell. *)
Definition savedBooking (now : Z) (st : App.State) (e : App.Editing.t)
    : Booking :=
  {| id := Number_toString (App.Editing.court e) ++ lit "-"
             ++ App.Editing.timeSlot e ++ lit "-" ++ Number_toString now;
     court := App.Editing.court e;
     timeSlot := App.Editing.timeSlot e;
     players := enteredPlayers st;
     type := App.Editing.type e;
     date := App.selectedDate st |}.

(** Whether (c, t) is the edited cell. *)
Definition isCell (e : App.Editing.t) (c : Z) (t : jsstring) : bool :=
  (c =? App.Editing.court e) && str_eqb t (App.Editing.timeSlot e).

(** Whether a call runs to its end without an error: the batch is
    dispatched, every send call returns, no send is rejected and the
    callback does not throw. *)
Definition fullSuccess (onEmailSent : option EmailNotifications.Completion)
    (net : nat -> EmailNotifications.Mail.options
           -> EmailNotifications.CallOutcome)
    (st : EmailNotifications.State) : bool :=
  dispatches st && allCallsReturn net st
  && (failures (batchResults net st) =? 0)
  && negb (callbackThrows onEmailSent).

End Vocab.
Import Vocab.

(* ================================================================= *)
(** ** Sample inputs *)

Module Examples.
Local Open Scope string_scope.

Definition mkBooking (c : Z) (ps : list string) (t : BookingType)
    (d : string) : Booking :=
  {| id := lit "b"; court := c; timeSlot := lit "5:00-6:00 PM";
     players := map lit ps; type := t; date := lit d |}.

(** Two entries that differ only in a leading space. *)
Definition spacedNames : list Booking :=
  [mkBooking 1 ["Alice"; " Alice"] singles "2024-01-07"].

(** One player on courts 3 then 1, once each. *)
Definition tiedCourts : list Booking :=
  [mkBooking 3 ["Ann"; ""] singles "2024-01-07";
   mkBooking 1 ["Ann"; ""] singles "2024-01-14"].

(** Players either side of a year boundary: Ann meets the earlier date
    first, Cy the later date first, Bob the same date twice. *)
Definition yearBoundary : list Booking :=
  [mkBooking 1 ["Ann"; "Bob"] singles "2023-12-30";
   mkBooking 1 ["Ann"; "Cy"] singles "2024-01-05";
   mkBooking 2 ["Bob"; "Cy"] singles "2023-12-30"].

(** Players met in the order Ann, Bob, Cy with 3, 5 and 1 matches. *)
Definition threeFiveOne : list Booking :=
  [mkBooking 1 ["Ann"; "Bob"] singles "2024-01-07";
   mkBooking 2 ["Ann"; "Bob"] singles "2024-01-14";
   mkBooking 3 ["Ann"; "Bob"] singles "2024-01-21";
   mkBooking 1 ["Bob"; "Cy"] singles "2024-01-28";
   mkBooking 1 ["Bob"; ""] singles "2024-02-04"].

(** A booking with blank entries only. *)
Definition blankBooking : Booking :=
  mkBooking 2 [""; "  "; ""; " "] doubles "2024-01-14".

(** A name entered twice in one doubles booking. *)
Definition repeatedName : Booking :=
  mkBooking 2 ["Ann"; "Ann"; "Bob"; "Cy"] doubles "2024-01-14".

(** A dialog whose three address fields all fail the shape check. *)
Definition noValidRecipient : EmailNotifications.State :=
  {| EmailNotifications.isOpen := true;
     EmailNotifications.emailAddresses :=
       [lit "foo@bar"; lit ""; lit "a b@c.d"];
     EmailNotifications.emailTemplate :=
       {| EmailNotifications.subject := lit "Booking";
          EmailNotifications.message := lit "See you on court." |};
     EmailNotifications.isSending := false;
     EmailNotifications.sendStatus := EmailNotifications.idle;
     EmailNotifications.errorMessage := [] |}.

(** A dialog with three valid addresses and one invalid one. *)
Definition threeRecipients : EmailNotifications.State :=
  {| EmailNotifications.isOpen := true;
     EmailNotifications.emailAddresses :=
       [lit "ann@club.org"; lit "foo@bar"; lit " bob@club.org ";
        lit "cy@club.org"];
     EmailNotifications.emailTemplate :=
       {| EmailNotifications.subject := lit "Booking";
          EmailNotifications.message := lit "See you on court." |};
     EmailNotifications.isSending := false;
     EmailNotifications.sendStatus := EmailNotifications.idle;
     EmailNotifications.errorMessage := [] |}.

(** A dialog whose only address carries a leading and a trailing space. *)
Definition spacedRecipient : EmailNotifications.State :=
  {| EmailNotifications.isOpen := true;
     EmailNotifications.emailAddresses := [lit " bob@club.org "];
     EmailNotifications.emailTemplate :=
       {| EmailNotifications.subject := lit "Booking";
          EmailNotifications.message := lit "See you on court." |};
     EmailNotifications.isSending := false;
     EmailNotifications.sendStatus := EmailNotifications.idle;
     EmailNotifications.errorMessage := [] |}.

(** A service that rejects the second request of a batch only. *)
Definition secondFails (i : nat) (o : EmailNotifications.Mail.options)
    : EmailNotifications.CallOutcome :=
  if Nat.eqb i 1 then EmailNotifications.returns EmailNotifications.rejected
  else EmailNotifications.returns EmailNotifications.fulfilled.


(** A service that delivers everything. *)
Definition allDelivered (i : nat) (o : EmailNotifications.Mail.options)
    : EmailNotifications.CallOutcome :=
  EmailNotifications.returns EmailNotifications.fulfilled.

(** The dialog open on a booked cell, with two names entered. *)
Definition editingBookedCell : App.State :=
  {| App.bookings :=
       [mkBooking 1 ["Ann"; "Cy"] singles "2024-01-07";
        {| id := lit "b2"; court := 2; timeSlot := lit "7:00-8:00 PM";
           players := [lit "Dee"; lit "Eve"]; type := doubles;
           date := lit "2024-01-07" |}];
     App.selectedDate := lit "2024-01-07";
     App.isDialogOpen := true;
     App.editingBooking :=
       Some {| App.Editing.court := 1;
               App.Editing.timeSlot := lit "5:00-6:00 PM";
               App.Editing.type := singles |};
     App.playerInputs := [lit "Ann"; lit "Bob"] |}.

(** A dialog with a valid address and a subject of spaces only. *)
Definition blankSubject : EmailNotifications.State :=
  {| EmailNotifications.isOpen := true;
     EmailNotifications.emailAddresses := [lit "ann@club.org"];
     EmailNotifications.emailTemplate :=
       {| EmailNotifications.subject := lit "   ";
          EmailNotifications.message := lit "See you on court." |};
     EmailNotifications.isSending := false;
     EmailNotifications.sendStatus := EmailNotifications.idle;
     EmailNotifications.errorMessage := [] |}.

(** A dialog with two address fields filled in. *)
Definition twoFields : EmailNotifications.State :=
  {| EmailNotifications.isOpen := true;
     EmailNotifications.emailAddresses := [lit "ann@club.org"; lit "bob@"];
     EmailNotifications.emailTemplate :=
       {| EmailNotifications.subject := lit "Booking";
          EmailNotifications.message := lit "See you on court." |};
     EmailNotifications.isSending := false;
     EmailNotifications.sendStatus := EmailNotifications.idle;
     EmailNotifications.errorMessage := [] |}.

(** Fixed offsets from UTC: one hour east, five hours west. *)
Definition oneHourEast (t : Z) : Z := 3600000.

Definition fiveHoursWest (t : Z) : Z := -18000000.

(** The grid on Sunday 7 January 2024 with one stored booking. *)
Definition sundayGrid : App.State :=
  {| App.bookings := [mkBooking 1 ["Ann"; "Cy"] singles "2024-01-07"];
     App.selectedDate := lit "2024-01-07";
     App.isDialogOpen := false;
     App.editingBooking := None;
     App.playerInputs := [[]; []; []; []] |}.

End Examples.

(* ================================================================= *)
(** * Properties *)

(** ** Strings *)

Lemma str_eqb_eq (a b : jsstring) : str_eqb a b = true <-> a = b.
Proof.
  revert b; induction a as [|x a IH]; intros [|y b]; simpl;
    try (split; [discriminate | congruence]); try tauto.
  rewrite andb_true_iff, N.eqb_eq, IH.
  split; [intros [-> ->]; reflexivity | intros H; inversion H; auto].
Qed.

Lemma str_eqb_refl (a : jsstring) : str_eqb a a = true.
Proof. apply str_eqb_eq; reflexivity. Qed.

Lemma str_eqb_neq (a b : jsstring) : str_eqb a b = false <-> a <> b.
Proof.
  rewrite <- str_eqb_eq. destruct (str_eqb a b); split; congruence.
Qed.

Lemma includes_In (l : list jsstring) (x : jsstring) :
  includes l x = true <-> In x l.
Proof.
  unfold includes. rewrite existsb_exists. split.
  - intros [y [Hy E]]. apply str_eqb_eq in E. subst. exact Hy.
  - intros H. exists x. split; [exact H | apply str_eqb_refl].
Qed.

Lemma trimStart_nil (s : jsstring) :
  trimStart s = [] <-> forallb isWhiteSpace s = true.
Proof.
  induction s as [|c s IH]; simpl; [tauto|].
  destruct (isWhiteSpace c); simpl; [exact IH|].
  split; discriminate.
Qed.

Lemma trimStart_keeps (s : jsstring) :
  forallb isWhiteSpace (trimStart s) = forallb isWhiteSpace s.
Proof.
  induction s as [|c s IH]; simpl; [reflexivity|].
  destruct (isWhiteSpace c) eqn:E; simpl; [exact IH|].
  rewrite E. reflexivity.
Qed.

Lemma forallb_rev {A} (p : A -> bool) (l : list A) :
  forallb p (rev l) = forallb p l.
Proof.
  induction l as [|x l IH]; simpl; [reflexivity|].
  rewrite forallb_app, IH. simpl. rewrite andb_true_r. apply andb_comm.
Qed.

(** [trim] leaves the empty string exactly on the strings made of white
    space only. *)
Lemma trim_nil (s : jsstring) :
  trim s = [] <-> forallb isWhiteSpace s = true.
Proof.
  unfold trim, trimEnd.
  rewrite <- (trimStart_keeps s), <- (forallb_rev _ (trimStart s)).
  rewrite <- trimStart_nil.
  split; intros H.
  - apply (f_equal (@rev N)) in H. rewrite rev_involutive in H. exact H.
  - rewrite H. reflexivity.
Qed.

Lemma isBlank_spec (s : jsstring) :
  isBlank s = true <-> forallb isWhiteSpace s = true.
Proof.
  rewrite <- trim_nil. unfold isBlank.
  destruct (trim s); simpl; split; congruence.
Qed.

(** ** Insertion-ordered maps *)

Section MapFacts.
Context {K V : Type} (eqb : K -> K -> bool).
Hypothesis eqb_spec : forall a b, eqb a b = true <-> a = b.

Local Abbreviation get := (JsMap.get eqb).
Local Abbreviation set := (JsMap.set eqb).

Lemma eqb_same k : eqb k k = true.
  Proof. apply eqb_spec; reflexivity. Qed.

Lemma eqb_diff a b : a <> b -> eqb a b = false.
  Proof.
    intros H. destruct (eqb a b) eqn:E; [|reflexivity].
    apply eqb_spec in E. contradiction.
  Qed.

Lemma get_set_same (m : JsMap.t) k (v : V) : get (set m k v) k = Some v.
  Proof.
    induction m as [|[k' v'] m IH]; simpl.
    - rewrite eqb_same. reflexivity.
    - destruct (eqb k' k) eqn:E; simpl; rewrite E; auto.
  Qed.

Lemma get_set_other (m : JsMap.t) k k' (v : V) :
    k <> k' -> get (set m k v) k' = get m k'.
  Proof.
    intros Hne. induction m as [|[k0 v0] m IH]; simpl.
    - rewrite (eqb_diff _ _ Hne). reflexivity.
    - destruct (eqb k0 k) eqn:E; simpl.
      + apply eqb_spec in E; subst k0.
        rewrite (eqb_diff _ _ Hne). reflexivity.
      + destruct (eqb k0 k'); auto.
  Qed.

Lemma get_None (m : @JsMap.t K V) k :
    get m k = None <-> ~ In k (JsMap.keys m).
  Proof.
    induction m as [|[k0 v0] m IH]; simpl; [tauto|].
    destruct (eqb k0 k) eqn:E.
    - apply eqb_spec in E. split; [discriminate | intros H; exfalso; auto].
    - rewrite IH. split; [|tauto].
      intros H [H1|H1]; [|auto].
      subst. rewrite eqb_same in E. discriminate.
  Qed.

Lemma get_In (m : JsMap.t) k (v : V) : get m k = Some v -> In (k, v) m.
  Proof.
    induction m as [|[k0 v0] m IH]; simpl; [discriminate|].
    destruct (eqb k0 k) eqn:E; [|auto].
    apply eqb_spec in E. intros H; inversion H; subst. auto.
  Qed.

Lemma In_get (m : JsMap.t) k (v : V) :
    NoDup (JsMap.keys m) -> In (k, v) m -> get m k = Some v.
  Proof.
    induction m as [|[k0 v0] m IH]; simpl; [tauto|].
    intros Hnd [H|H].
    - inversion H; subst. rewrite eqb_same. reflexivity.
    - inversion Hnd as [|? ? Hnin Hnd']; subst.
      destruct (eqb k0 k) eqn:E; [|auto].
      apply eqb_spec in E; subst. exfalso. apply Hnin.
      apply (in_map fst) in H. exact H.
  Qed.

Lemma keys_set_present (m : JsMap.t) k (v : V) :
    In k (JsMap.keys m) -> JsMap.keys (set m k v) = JsMap.keys m.
  Proof.
    induction m as [|[k0 v0] m IH]; simpl; [tauto|].
    intros H. destruct (eqb k0 k) eqn:E; simpl; [reflexivity|].
    f_equal. apply IH. destruct H as [H|H]; [|exact H].
    subst. rewrite eqb_same in E. discriminate.
  Qed.

Lemma keys_set_absent (m : JsMap.t) k (v : V) :
    ~ In k (JsMap.keys m) -> JsMap.keys (set m k v) = JsMap.keys m ++ [k].
  Proof.
    induction m as [|[k0 v0] m IH]; simpl; [reflexivity|].
    intros H. destruct (eqb k0 k) eqn:E; simpl.
    - apply eqb_spec in E. exfalso; auto.
    - f_equal. apply IH. tauto.
  Qed.

Lemma keys_set_NoDup (m : JsMap.t) k (v : V) :
    NoDup (JsMap.keys m) -> NoDup (JsMap.keys (set m k v)).
  Proof.
    intros Hnd. destruct (get m k) eqn:G.
    - rewrite keys_set_present; [exact Hnd|].
      apply get_In in G. apply (in_map fst) in G. exact G.
    - apply get_None in G. rewrite keys_set_absent by exact G.
      apply NoDup_rev in Hnd. rewrite <- (rev_involutive (_ ++ _)).
      apply NoDup_rev. rewrite rev_app_distr. simpl.
      constructor; [|exact Hnd]. rewrite <- in_rev. exact G.
  Qed.

Lemma In_keys_set (m : JsMap.t) k (v : V) k' :
    In k' (JsMap.keys (set m k v)) <-> k' = k \/ In k' (JsMap.keys m).
  Proof.
    destruct (get m k) eqn:G.
    - assert (Hk : In k (JsMap.keys m)).
      { apply get_In in G. apply (in_map fst) in G. exact G. }
      rewrite keys_set_present by exact Hk.
      split; [auto | intros [->|H]; auto].
    - apply get_None in G. rewrite keys_set_absent by exact G.
      rewrite in_app_iff. simpl. split; intros H; intuition auto.
  Qed.
End MapFacts.

(** ** The grouping pass *)

Section GroupingPass.
Import PlayerStats.

Local Abbreviation sget := (JsMap.get str_eqb).
Local Abbreviation sset := (JsMap.set str_eqb).

Lemma processPlayer_blank booking statsMap playerName :
  isBlank playerName = true ->
  processPlayer booking statsMap playerName = statsMap.
Proof.
  unfold processPlayer, isBlank. intros ->. reflexivity.
Qed.

Lemma processPlayer_nonblank booking statsMap playerName :
  isBlank playerName = false ->
  processPlayer booking statsMap playerName =
  sset statsMap playerName
    (accumulate booking playerName (sget statsMap playerName)).
Proof.
  unfold processPlayer, isBlank. intros ->. reflexivity.
Qed.

Lemma processPlayers_get booking n :
  isBlank n = false ->
  forall ps statsMap,
    sget (fold_left (processPlayer booking) ps statsMap) n =
    summarizeFrom n
      (map (fun _ => booking) (filter (fun p => str_eqb p n) ps))
      (sget statsMap n).
Proof.
  intros Hn. induction ps as [|p ps IH]; intros m; simpl; [reflexivity|].
  rewrite IH. destruct (str_eqb p n) eqn:E.
  - apply str_eqb_eq in E; subst p. simpl.
    rewrite (processPlayer_nonblank _ _ _ Hn).
    rewrite (get_set_same _ str_eqb_eq). reflexivity.
  - apply str_eqb_neq in E. destruct (isBlank p) eqn:Bp.
    + rewrite (processPlayer_blank _ _ _ Bp). reflexivity.
    + rewrite (processPlayer_nonblank _ _ _ Bp).
      rewrite (get_set_other _ str_eqb_eq) by exact E. reflexivity.
Qed.

Lemma summarizeFrom_app n cs1 cs2 found :
  summarizeFrom n (cs1 ++ cs2) found =
  summarizeFrom n cs2 (summarizeFrom n cs1 found).
Proof. unfold summarizeFrom. apply fold_left_app. Qed.

Lemma processBookings_get n :
  isBlank n = false ->
  forall bs statsMap,
    sget (fold_left processBooking bs statsMap) n =
    summarizeFrom n (contributions n bs) (sget statsMap n).
Proof.
  intros Hn. induction bs as [|b bs IH]; intros m; simpl; [reflexivity|].
  rewrite IH. unfold processBooking.
  rewrite (processPlayers_get _ _ Hn), <- summarizeFrom_app. reflexivity.
Qed.

(** What the first pass has stored under a non-blank name. *)
Lemma groupingPass_get bs n :
  isBlank n = false ->
  sget (groupingPass bs) n = summarizeFrom n (contributions n bs) None.
Proof.
  intros Hn. unfold groupingPass.
  rewrite (processBookings_get _ Hn). reflexivity.
Qed.

Lemma processPlayer_keys booking statsMap p k :
  In k (JsMap.keys (processPlayer booking statsMap p)) <->
  (isBlank p = false /\ k = p) \/ In k (JsMap.keys statsMap).
Proof.
  destruct (isBlank p) eqn:Bp.
  - rewrite (processPlayer_blank _ _ _ Bp). intuition congruence.
  - rewrite (processPlayer_nonblank _ _ _ Bp).
    rewrite (In_keys_set _ str_eqb_eq). intuition auto.
Qed.

Lemma processPlayers_keys booking k ps : forall statsMap,
  In k (JsMap.keys (fold_left (processPlayer booking) ps statsMap)) <->
  (isBlank k = false /\ In k ps) \/ In k (JsMap.keys statsMap).
Proof.
  induction ps as [|p ps IH]; intros m; simpl; [tauto|].
  rewrite IH, processPlayer_keys. intuition (subst; auto).
Qed.

Lemma processBookings_keys k bs : forall statsMap,
  In k (JsMap.keys (fold_left processBooking bs statsMap)) <->
  (isBlank k = false /\ exists b, In b bs /\ In k (players b))
  \/ In k (JsMap.keys statsMap).
Proof.
  induction bs as [|b bs IH]; intros m; simpl.
  - split; [tauto|]. intros [[_ [b [[] _]]]|H]; exact H.
  - rewrite IH. unfold processBooking. rewrite processPlayers_keys.
    split.
    + intros [[Hb [b' [Hin Hk]]]|[[Hb Hk]|H]]; eauto 6.
    + intros [[Hb [b' [[->|Hin] Hk]]]|H]; eauto 6.
Qed.

(** The keys of the first pass: the non-blank entries of the input. *)
Lemma groupingPass_keys bs k :
  In k (JsMap.keys (groupingPass bs)) <->
  isBlank k = false /\ exists b, In b bs /\ In k (players b).
Proof.
  unfold groupingPass. rewrite processBookings_keys. simpl. tauto.
Qed.

Lemma processPlayers_NoDup booking ps : forall statsMap,
  NoDup (JsMap.keys statsMap) ->
  NoDup (JsMap.keys (fold_left (processPlayer booking) ps statsMap)).
Proof.
  induction ps as [|p ps IH]; intros m Hm; simpl; [exact Hm|].
  apply IH. unfold processPlayer.
  destruct (negb (truthy (trim p))); [exact Hm|].
  apply (keys_set_NoDup _ str_eqb_eq). exact Hm.
Qed.

Lemma groupingPass_NoDup bs : NoDup (JsMap.keys (groupingPass bs)).
Proof.
  unfold groupingPass.
  assert (H : forall m, NoDup (JsMap.keys m) ->
                        NoDup (JsMap.keys (fold_left processBooking bs m))).
  { induction bs as [|b bs IH]; intros m Hm; simpl; [exact Hm|].
    apply IH. apply processPlayers_NoDup. exact Hm. }
  apply H. constructor.
Qed.

(** Fields of a summarized record. *)

Lemma summarizeFrom_name n cs : forall found s,
  (forall s0, found = Some s0 -> name s0 = n) ->
  summarizeFrom n cs found = Some s -> name s = n.
Proof.
  induction cs as [|b cs IH]; intros found s Hf; simpl.
  - intros H. apply Hf. exact H.
  - apply IH. intros s0 H0. inversion H0; subst; clear H0.
    destruct found as [s1|]; simpl; [apply Hf; reflexivity | reflexivity].
Qed.

Lemma summarizeFrom_total n cs : forall found,
  totalOf (summarizeFrom n cs found) =
  totalOf found + Z.of_nat (List.length cs).
Proof.
  induction cs as [|b cs IH]; intros found.
  - simpl. lia.
  - change (summarizeFrom n (b :: cs) found)
      with (summarizeFrom n cs (Some (accumulate b n found))).
    rewrite IH.
    change (List.length (b :: cs)) with (S (List.length cs)).
    rewrite Nat2Z.inj_succ.
    destruct found; cbv [totalOf accumulate totalMatches]; lia.
Qed.

Lemma summarizeFrom_hours n cs : forall found,
  hoursOf (summarizeFrom n cs found) =
  hoursOf found + sumZ (map matchDuration cs).
Proof.
  induction cs as [|b cs IH]; intros found.
  - simpl. lia.
  - change (summarizeFrom n (b :: cs) found)
      with (summarizeFrom n cs (Some (accumulate b n found))).
    rewrite IH. change (sumZ (map matchDuration (b :: cs)))
      with (matchDuration b + sumZ (map matchDuration cs)).
    destruct found; cbv [hoursOf accumulate totalHours]; lia.
Qed.

Lemma summarizeFrom_split n cs : forall found s,
  (forall s0, found = Some s0 ->
     singlesMatches s0 + doublesMatches s0 = totalMatches s0) ->
  summarizeFrom n cs found = Some s ->
  singlesMatches s + doublesMatches s = totalMatches s.
Proof.
  induction cs as [|b cs IH]; intros found s Hf; simpl.
  - intros H. apply Hf. exact H.
  - apply IH. intros s0 H0. inversion H0; subst; clear H0.
    destruct found as [s1|]; simpl.
    + specialize (Hf s1 eq_refl). destruct (type b); lia.
    + destruct (type b); lia.
Qed.

Lemma contributions_length n bs :
  Z.of_nat (List.length (contributions n bs)) = entryCount n bs.
Proof.
  induction bs as [|b bs IH]; simpl; [reflexivity|].
  unfold contributions in *. simpl.
  rewrite length_app, length_map, Nat2Z.inj_add, IH. reflexivity.
Qed.

End GroupingPass.

(** ** Sorting *)

Section SortFacts.
Context {A : Type} (cmp : A -> A -> Z).

Lemma sort_insert_perm (x : A) (l : list A) :
  Permutation (sort_insert cmp x l) (x :: l).
Proof.
  induction l as [|y l IH]; simpl; [apply Permutation_refl|].
  destruct (cmp x y <=? 0); [apply Permutation_refl|].
  eapply Permutation_trans; [apply perm_skip, IH | apply perm_swap].
Qed.

Lemma Array_sort_perm (l : list A) : Permutation (Array_sort cmp l) l.
Proof.
  induction l as [|x l IH]; simpl; [constructor|].
  eapply Permutation_trans; [apply sort_insert_perm | apply perm_skip, IH].
Qed.

Lemma Array_sort_In (l : list A) (x : A) :
  In x (Array_sort cmp l) <-> In x l.
Proof.
  split; apply Permutation_in;
    [apply Array_sort_perm | apply Permutation_sym, Array_sort_perm].
Qed.
End SortFacts.

Section StatsOutput.
Import PlayerStats.

Lemma sort_insert_sortedDesc x l :
  sortedDesc l -> sortedDesc (sort_insert byTotalMatchesDesc x l).
Proof.
  unfold sortedDesc. induction l as [|y l IH]; intros Hs; simpl.
  - constructor; constructor.
  - inversion Hs as [|? ? Hs' Hall]; subst.
    destruct (byTotalMatchesDesc x y <=? 0) eqn:E.
    + apply Z.leb_le in E. unfold byTotalMatchesDesc in E.
      constructor; [exact Hs|]. constructor; [lia|].
      eapply Forall_impl; [|exact Hall]. simpl. intros; lia.
    + apply Z.leb_gt in E. unfold byTotalMatchesDesc in E.
      constructor; [apply IH; exact Hs'|].
      eapply Permutation_Forall;
        [apply Permutation_sym, sort_insert_perm|].
      constructor; [lia | exact Hall].
Qed.

Lemma Array_sort_sortedDesc l :
  sortedDesc (Array_sort byTotalMatchesDesc l).
Proof.
  induction l as [|x l IH]; simpl; [constructor|].
  apply sort_insert_sortedDesc. exact IH.
Qed.

Lemma groupingPass_entry bs k s0 :
  In (k, s0) (groupingPass bs) ->
  isBlank k = false /\ name s0 = k /\
  summarizeFrom k (contributions k bs) None = Some s0.
Proof.
  intros Hin.
  assert (Hk : isBlank k = false).
  { apply (in_map fst) in Hin. apply groupingPass_keys in Hin. tauto. }
  apply (In_get _ str_eqb_eq) in Hin; [|apply groupingPass_NoDup].
  rewrite (groupingPass_get _ _ Hk) in Hin.
  repeat split; try assumption.
  eapply summarizeFrom_name; [|exact Hin]. discriminate.
Qed.

(** Every output record is the first-pass record of its name, with the
    favourite court of the second pass. *)
Lemma output_inv bs s :
  In s (calculatePlayerStats bs) ->
  exists s0,
    isBlank (name s) = false /\
    summarizeFrom (name s) (contributions (name s) bs) None = Some s0 /\
    s = withFavorite bs s0.
Proof.
  unfold calculatePlayerStats. rewrite Array_sort_In.
  unfold JsMap.values, favoritePass. rewrite map_map, in_map_iff.
  intros [[k s0] [Hs Hin]].
  destruct (groupingPass_entry _ _ _ Hin) as [Hk [Hn Hsum]].
  exists s0. subst s. simpl. subst k.
  repeat split; assumption.
Qed.

Lemma output_names_perm bs :
  Permutation (map name (calculatePlayerStats bs))
              (JsMap.keys (groupingPass bs)).
Proof.
  unfold calculatePlayerStats.
  eapply Permutation_trans;
    [apply Permutation_map, Array_sort_perm|].
  unfold JsMap.values, JsMap.keys, favoritePass.
  rewrite !map_map.
  erewrite map_ext_in; [apply Permutation_refl|].
  intros [k s0] Hin. simpl.
  apply groupingPass_entry in Hin. tauto.
Qed.

Lemma sumZ_split (l : list PlayerStat) :
  Forall (fun s => singlesMatches s + doublesMatches s = totalMatches s) l ->
  sumZ (map singlesMatches l) + sumZ (map doublesMatches l)
  = sumZ (map totalMatches l).
Proof.
  induction 1 as [|s l Hs _ IH]; simpl; lia.
Qed.

End StatsOutput.

(** ** The favourite-court pass *)

Section FavoritePass.
Import PlayerStats.

Local Abbreviation zget := (JsMap.get Z.eqb).

Lemma tallyCourts_fold n bs : forall m,
  fold_left (tallyBooking n) bs m = fold_left tallyCourt (courtsOf bs n) m.
Proof.
  unfold courtsOf.
  induction bs as [|b bs IH]; intros m; simpl; [reflexivity|].
  rewrite IH. unfold tallyBooking at 1.
  destruct (includes (players b) n); reflexivity.
Qed.

Lemma tallyCourts_courtsOf bs n :
  tallyCourts bs n = fold_left tallyCourt (courtsOf bs n) [].
Proof. apply tallyCourts_fold. Qed.

Lemma tally_snoc cs c :
  fold_left tallyCourt (cs ++ [c]) [] =
  tallyCourt (fold_left tallyCourt cs []) c.
Proof. rewrite fold_left_app. reflexivity. Qed.

Lemma occ_snoc c' cs c :
  occ c' (cs ++ [c]) = occ c' cs + (if c' =? c then 1 else 0).
Proof.
  unfold occ. rewrite filter_app, length_app, Nat2Z.inj_add. simpl.
  destruct (c' =? c); reflexivity.
Qed.

Lemma occ_pos c cs : In c cs <-> 0 < occ c cs.
Proof.
  unfold occ. split.
  - intros H.
    assert (Hf : In c (filter (Z.eqb c) cs)).
    { apply filter_In. split; [exact H | apply Z.eqb_refl]. }
    destruct (filter (Z.eqb c) cs); [contradiction | simpl; lia].
  - intros H. destruct (filter (Z.eqb c) cs) as [|x l] eqn:F;
      [simpl in H; lia|].
    assert (Hx : In x (filter (Z.eqb c) cs)) by (rewrite F; left; auto).
    apply filter_In in Hx. destruct Hx as [Hx E].
    apply Z.eqb_eq in E. subst. exact Hx.
Qed.

Lemma tallyCourt_count m c0 c :
  countOf (tallyCourt m c0) c = countOf m c + (if c =? c0 then 1 else 0).
Proof.
  unfold tallyCourt, countOf at 1.
  destruct (Z.eq_dec c0 c) as [->|Hne].
  - rewrite (get_set_same _ Z.eqb_eq), Z.eqb_refl. reflexivity.
  - rewrite (get_set_other _ Z.eqb_eq) by exact Hne.
    fold (countOf m c).
    destruct (c =? c0) eqn:E; [apply Z.eqb_eq in E; congruence | lia].
Qed.

(** The tally holds, per court, its number of occurrences. *)
Lemma tally_count cs : forall c,
  countOf (fold_left tallyCourt cs []) c = occ c cs.
Proof.
  induction cs as [|c0 cs IH] using rev_ind; intros c; [reflexivity|].
  rewrite tally_snoc, occ_snoc, tallyCourt_count, IH. reflexivity.
Qed.

Lemma tally_NoDup cs : NoDup (JsMap.keys (fold_left tallyCourt cs [])).
Proof.
  induction cs as [|c0 cs IH] using rev_ind; [constructor|].
  rewrite tally_snoc. apply (keys_set_NoDup _ Z.eqb_eq). exact IH.
Qed.

Lemma tally_keys cs c :
  In c (JsMap.keys (fold_left tallyCourt cs [])) <-> In c cs.
Proof.
  induction cs as [|c0 cs IH] using rev_ind; [simpl; tauto|].
  rewrite tally_snoc. unfold tallyCourt.
  rewrite (In_keys_set _ Z.eqb_eq), IH, in_app_iff. simpl.
  intuition auto.
Qed.

Lemma tally_entry cs c n :
  In (c, n) (fold_left tallyCourt cs []) -> n = occ c cs.
Proof.
  intros H. apply (In_get _ Z.eqb_eq) in H; [|apply tally_NoDup].
  rewrite <- tally_count. unfold countOf. rewrite H. reflexivity.
Qed.

(** The keys of the tally are in order of first occurrence: what stands
    before a key in the tally is all that the scan met before it. *)
Lemma tally_order cs : forall k1 fav k2,
  JsMap.keys (fold_left tallyCourt cs []) = k1 ++ fav :: k2 ->
  exists before after,
    cs = before ++ fav :: after /\ ~ In fav before /\
    forall c, In c before -> In c k1.
Proof.
  induction cs as [|c0 cs IH] using rev_ind; intros k1 fav k2 Hk.
  - destruct k1; discriminate.
  - rewrite tally_snoc in Hk. unfold tallyCourt in Hk.
    destruct (in_dec Z.eq_dec c0 cs) as [Hin|Hnin].
    + rewrite (keys_set_present _ Z.eqb_eq) in Hk
        by (apply tally_keys; exact Hin).
      destruct (IH _ _ _ Hk) as [before [after [E [Hb Hc]]]].
      exists before, (after ++ [c0]). subst cs.
      rewrite <- app_assoc. auto.
    + rewrite (keys_set_absent _ Z.eqb_eq) in Hk
        by (rewrite tally_keys; exact Hnin).
      destruct (list_eq_dec Z.eq_dec k2 []) as [->|Hne].
      * apply app_inj_tail in Hk. destruct Hk as [Hk ->].
        exists cs, []. repeat split; [exact Hnin|].
        intros c Hc. rewrite <- Hk. apply tally_keys. exact Hc.
      * destruct (exists_last Hne) as [k2' [z Ez]]. subst k2.
        rewrite app_comm_cons, app_assoc in Hk.
        apply app_inj_tail in Hk. destruct Hk as [Hk _].
        destruct (IH _ _ _ Hk) as [before [after [E [Hb Hc]]]].
        exists before, (after ++ [c0]). subst cs.
        rewrite <- app_assoc. auto.
Qed.

(** The selection loop: either nothing beat the running maximum, or the
    result is the first entry holding the largest count. *)
Lemma pick_spec (m : courtCounts_t) : forall mx fv,
  let r := fold_left pickStep m (mx, fv) in
  (r = (mx, fv) /\ forall c n, In (c, n) m -> n <= mx) \/
  (exists m1 m2,
     m = m1 ++ (snd r, fst r) :: m2 /\ mx < fst r /\
     (forall c n, In (c, n) m1 -> n < fst r) /\
     (forall c n, In (c, n) m2 -> n <= fst r)).
Proof.
  induction m as [|[c n] m IH]; intros mx fv; simpl.
  - left. split; [reflexivity | tauto].
  - destruct (mx <? n) eqn:E.
    + apply Z.ltb_lt in E.
      destruct (IH n c) as [[Hr Hall]|[m1 [m2 [Hm [Hlt [H1 H2]]]]]].
      * right. exists [], m. rewrite Hr. simpl.
        repeat split; [exact E | tauto | exact Hall].
      * right. exists ((c, n) :: m1), m2. simpl.
        repeat split; [f_equal; exact Hm | lia | | exact H2].
        intros c' n' [H|H]; [inversion H; subst; exact Hlt | eauto].
    + apply Z.ltb_ge in E.
      destruct (IH mx fv) as [[Hr Hall]|[m1 [m2 [Hm [Hlt [H1 H2]]]]]].
      * left. split; [exact Hr|].
        intros c' n' [H|H]; [inversion H; subst; exact E | eauto].
      * right. exists ((c, n) :: m1), m2. simpl.
        repeat split; [f_equal; exact Hm | exact Hlt | | exact H2].
        intros c' n' [H|H]; [inversion H; subst; lia | eauto].
Qed.

(** On a non-empty court sequence the second pass selects the first most
    frequent court. *)
Lemma pickFavorite_tally cs :
  cs <> [] ->
  firstMostFrequent cs (pickFavorite (fold_left tallyCourt cs [])).
Proof.
  intros Hne. unfold pickFavorite.
  set (m := fold_left tallyCourt cs []).
  destruct (pick_spec m 0 1) as [[_ Hall]|[m1 [m2 [Hm [Hlt [H1 H2]]]]]].
  - exfalso. destruct cs as [|c cs]; [congruence|].
    assert (Hc : In c (c :: cs)) by (left; reflexivity).
    pose proof (proj1 (occ_pos _ _) Hc) as Hpos.
    rewrite <- tally_count in Hpos. fold m in Hpos. unfold countOf in Hpos.
    destruct (zget m c) as [n|] eqn:G; [|lia].
    apply (get_In _ Z.eqb_eq) in G. specialize (Hall _ _ G). lia.
  - set (r := fold_left pickStep m (0, 1)) in *.
    assert (Hfav : fst r = occ (snd r) cs).
    { apply tally_entry. fold m. rewrite Hm.
      apply in_elt. }
    split.
    + intros c. destruct (in_dec Z.eq_dec c cs) as [Hin|Hnin].
      * apply tally_keys in Hin. fold m in Hin.
        apply in_map_iff in Hin. destruct Hin as [[c' n] [Ec Hin]].
        simpl in Ec. subst c'.
        assert (Hn : n = occ c cs) by (apply tally_entry; exact Hin).
        rewrite Hm in Hin. apply in_app_or in Hin.
        destruct Hin as [Hin|[Hin|Hin]].
        -- specialize (H1 _ _ Hin). lia.
        -- inversion Hin; subst. lia.
        -- specialize (H2 _ _ Hin). lia.
      * assert (occ c cs <= 0); [|lia].
        destruct (Z_lt_le_dec 0 (occ c cs)) as [Hp|Hp]; [|exact Hp].
        apply occ_pos in Hp. contradiction.
    + assert (Hk : JsMap.keys m = map fst m1 ++ snd r :: map fst m2).
      { unfold JsMap.keys. rewrite Hm, map_app. reflexivity. }
      destruct (tally_order _ _ _ _ Hk) as [before [after [E [Hb Hc]]]].
      exists before, after. repeat split; [exact E | exact Hb |].
      intros c Hin. apply Hc in Hin. apply in_map_iff in Hin.
      destruct Hin as [[c' n] [Ec Hin]]. simpl in Ec. subst c'.
      assert (Hn : n = occ c cs).
      { apply tally_entry. fold m. rewrite Hm.
        apply in_or_app. left. exact Hin. }
      specialize (H1 _ _ Hin). lia.
Qed.

Lemma favoriteCourt_withFavorite bs s0 :
  favoriteCourt (withFavorite bs s0) =
  pickFavorite (tallyCourts bs (name s0)).
Proof. reflexivity. Qed.

Lemma courtsOf_nonempty bs n :
  (exists b, In b bs /\ In n (players b)) -> courtsOf bs n <> [].
Proof.
  intros [b [Hb Hn]] E. unfold courtsOf in E. apply map_eq_nil in E.
  assert (H : In b (filter (fun b => includes (players b) n) bs)).
  { apply filter_In. split; [exact Hb | apply includes_In; exact Hn]. }
  rewrite E in H. contradiction.
Qed.

End FavoritePass.

(** ** Dates *)

Section DateFacts.

Lemma DayFromYear_succ y : DayFromYear (y + 1) = DayFromYear y + DaysInYear y.
Proof.
  unfold DayFromYear, DaysInYear, InLeapYear.
  destruct (y mod 4 =? 0) eqn:E4; cbn [negb];
    [destruct (y mod 100 =? 0) eqn:E100; cbn [negb];
       [destruct (y mod 400 =? 0) eqn:E400; cbn [negb]|]|];
    rewrite ?Z.eqb_eq, ?Z.eqb_neq in *;
    Z.div_mod_to_equations; lia.
Qed.

Lemma DayFromYear_mono a b : a <= b -> DayFromYear a <= DayFromYear b.
Proof.
  unfold DayFromYear. intros H. Z.div_mod_to_equations. lia.
Qed.

Lemma month_cases m :
  1 <= m <= 12 ->
  m = 1 \/ m = 2 \/ m = 3 \/ m = 4 \/ m = 5 \/ m = 6 \/
  m = 7 \/ m = 8 \/ m = 9 \/ m = 10 \/ m = 11 \/ m = 12.
Proof. lia. Qed.

Lemma validCivil_bounds c :
  validCivil c = true ->
  1 <= month c <= 12 /\ 1 <= day c <= DaysInMonth (year c) (month c).
Proof.
  unfold validCivil. rewrite !andb_true_iff, !Z.leb_le. lia.
Qed.

Lemma dayInYear_bounds c :
  validCivil c = true -> 0 <= dayInYear c < DaysInYear (year c).
Proof.
  intros H. apply validCivil_bounds in H. destruct H as [Hm Hd].
  unfold dayInYear, DaysInYear. destruct c as [y m d]; simpl in *.
  apply month_cases in Hm.
  unfold DaysBeforeMonth, DaysInMonth in *.
  destruct (InLeapYear y);
    repeat (destruct Hm as [Hm|Hm]; [subst m; lia|]); subst m; lia.
Qed.

Lemma dayInYear_mono a b :
  validCivil a = true -> validCivil b = true -> year a = year b ->
  month a < month b \/ (month a = month b /\ day a < day b) ->
  dayInYear a < dayInYear b.
Proof.
  intros Ha Hb Hy Hlt.
  apply validCivil_bounds in Ha. apply validCivil_bounds in Hb.
  destruct Ha as [Hma Hda], Hb as [Hmb Hdb].
  unfold dayInYear.
  destruct a as [y ma da], b as [y' mb db]; simpl in *. subst y'.
  apply month_cases in Hma. apply month_cases in Hmb.
  unfold DaysBeforeMonth, DaysInMonth in *.
  destruct (InLeapYear y);
    repeat (destruct Hma as [Hma|Hma];
            [subst ma;
             repeat (destruct Hmb as [Hmb|Hmb]; [subst mb; lia|]);
             subst mb; lia|]);
    subst ma;
    repeat (destruct Hmb as [Hmb|Hmb]; [subst mb; lia|]);
    subst mb; lia.
Qed.

(** The time value orders valid dates as the calendar does. *)
Lemma timeOfCivil_mono a b :
  validCivil a = true -> validCivil b = true ->
  civil_lt a b -> timeOfCivil a < timeOfCivil b.
Proof.
  intros Ha Hb Hlt. unfold timeOfCivil, msPerDay.
  pose proof (dayInYear_bounds _ Ha) as Ba.
  pose proof (dayInYear_bounds _ Hb) as Bb.
  apply Z.mul_lt_mono_pos_r; [lia|].
  destruct Hlt as [Hy|[Hy Hmd]].
  - assert (Hs : DayFromYear (year a + 1) <= DayFromYear (year b))
      by (apply DayFromYear_mono; lia).
    rewrite DayFromYear_succ in Hs. unfold dayInYear in *. lia.
  - pose proof (dayInYear_mono _ _ Ha Hb Hy Hmd) as Hd.
    unfold dayInYear in *. rewrite Hy in *. lia.
Qed.

Lemma civil_trichotomy a b : civil_lt a b \/ a = b \/ civil_lt b a.
Proof.
  unfold civil_lt. destruct a as [ya ma da], b as [yb mb db]; simpl.
  destruct (Z.lt_trichotomy ya yb) as [H|[H|H]]; [lia| |lia].
  destruct (Z.lt_trichotomy ma mb) as [H1|[H1|H1]]; [lia| |lia].
  destruct (Z.lt_trichotomy da db) as [H2|[H2|H2]]; [lia| |lia].
  right; left. subst. reflexivity.
Qed.

Lemma civil_lt_trans a b c : civil_lt a b -> civil_lt b c -> civil_lt a c.
Proof. unfold civil_lt. lia. Qed.

Lemma civil_le_trans a b c : civil_le a b -> civil_le b c -> civil_le a c.
Proof.
  unfold civil_le. intros [H1| ->] [H2| ->]; auto.
  left. eapply civil_lt_trans; eassumption.
Qed.

Lemma parseCivil_valid s c : parseCivil s = Some c -> validCivil c = true.
Proof.
  unfold parseCivil.
  destruct s as [|y1 [|y2 [|y3 [|y4 [|h1 [|m1 [|m2 [|h2 [|d1 [|d2 [|x s]
    ]]]]]]]]]]; try discriminate.
  destruct (digit y1), (digit y2), (digit y3), (digit y4),
    (digit m1), (digit m2), (digit d1), (digit d2); try discriminate.
  match goal with
  | |- (if ?t then _ else _) = _ -> _ => destruct t eqn:E
  end; [|discriminate].
  intros H; inversion H; subst; clear H.
  apply andb_true_iff in E. tauto.
Qed.

(** [new Date(a) > new Date(b)] on parseable dates is the calendar order. *)
Lemma Date_gt_civil a b ca cb :
  parseCivil a = Some ca -> parseCivil b = Some cb ->
  (Date_gt a b = true <-> civil_lt cb ca).
Proof.
  intros Pa Pb. unfold Date_gt, Date_value. rewrite Pa, Pb. simpl.
  pose proof (parseCivil_valid _ _ Pa) as Va.
  pose proof (parseCivil_valid _ _ Pb) as Vb.
  rewrite Z.ltb_lt. split.
  - intros H. destruct (civil_trichotomy cb ca) as [L|[E|L]]; [exact L| |].
    + subst. lia.
    + pose proof (timeOfCivil_mono _ _ Va Vb L). lia.
  - apply timeOfCivil_mono; assumption.
Qed.

End DateFacts.

(** ** The last-played date *)

Section LastPlayed.
Import PlayerStats.

Lemma summarizeFrom_snoc n cs b found :
  summarizeFrom n (cs ++ [b]) found =
  Some (accumulate b n (summarizeFrom n cs found)).
Proof. unfold summarizeFrom. rewrite fold_left_app. reflexivity. Qed.

Lemma summarizeFrom_None n cs :
  summarizeFrom n cs None = None -> cs = [].
Proof.
  destruct cs as [|b cs] using rev_ind; [reflexivity|].
  rewrite summarizeFrom_snoc. discriminate.
Qed.

Lemma contributions_In n bs b :
  In b (contributions n bs) <-> In b bs /\ In n (players b).
Proof.
  unfold contributions. rewrite in_flat_map. split.
  - intros [b' [Hb' Hin]]. apply in_map_iff in Hin.
    destruct Hin as [p [<- Hp]]. apply filter_In in Hp.
    destruct Hp as [Hp E]. apply str_eqb_eq in E. subst p. auto.
  - intros [Hb Hn]. exists b. split; [exact Hb|].
    apply in_map_iff. exists n. split; [reflexivity|].
    apply filter_In. split; [exact Hn | apply str_eqb_refl].
Qed.

(** Over the bookings that feed a record, the stored date is the date of
    one of them and none is later. *)
Lemma summarizeFrom_last n cs : forall s,
  (forall b, In b cs -> parseCivil (date b) <> None) ->
  summarizeFrom n cs None = Some s ->
  exists c,
    parseCivil (lastPlayed s) = Some c /\
    (exists b, In b cs /\ date b = lastPlayed s) /\
    forall b, In b cs ->
      exists cb, parseCivil (date b) = Some cb /\ civil_le cb c.
Proof.
  induction cs as [|b cs IH] using rev_ind; intros s Hwf Hs;
    [discriminate|].
  rewrite summarizeFrom_snoc in Hs. inversion Hs; subst s; clear Hs.
  assert (Hb : parseCivil (date b) <> None)
    by (apply Hwf, in_or_app; right; left; reflexivity).
  destruct (parseCivil (date b)) as [cb|] eqn:Pb; [clear Hb|congruence].
  destruct (summarizeFrom n cs None) as [s1|] eqn:Hprev.
  - destruct (IH s1) as [c1 [P1 [[b1 [Hb1 Eb1]] Hall]]];
      [intros b' Hb'; apply Hwf, in_or_app; left; exact Hb'
      | reflexivity |].
    unfold accumulate; simpl.
    destruct (Date_gt (date b) (lastPlayed s1)) eqn:G.
    + apply (Date_gt_civil _ _ _ _ Pb P1) in G.
      exists cb. split; [exact Pb|]. split.
      * exists b. split; [apply in_or_app; right; left|]; reflexivity.
      * intros b' Hb'. apply in_app_or in Hb'.
        destruct Hb' as [Hb'|[<-|[]]].
        -- destruct (Hall _ Hb') as [cb' [Pb' Hle]].
           exists cb'. split; [exact Pb'|].
           eapply civil_le_trans; [exact Hle | left; exact G].
        -- exists cb. split; [exact Pb | right; reflexivity].
    + exists c1. split; [exact P1|]. split.
      * exists b1. split; [apply in_or_app; left; exact Hb1 | exact Eb1].
      * intros b' Hb'. apply in_app_or in Hb'.
        destruct Hb' as [Hb'|[<-|[]]]; [apply Hall; exact Hb'|].
        exists cb. split; [exact Pb|].
        destruct (civil_trichotomy cb c1) as [L|[E|L]].
        -- left; exact L.
        -- right; exact E.
        -- apply (Date_gt_civil _ _ _ _ Pb P1) in L. congruence.
  - apply summarizeFrom_None in Hprev. subst cs.
    unfold accumulate; simpl.
    exists cb. split; [destruct (Date_gt _ _); exact Pb|]. split.
    + exists b. split; [left; reflexivity | destruct (Date_gt _ _); auto].
    + intros b' [<-|[]]. exists cb. split; [exact Pb | right; reflexivity].
Qed.

Lemma output_lastPlayed bs s :
  datesWellFormed bs ->
  In s (calculatePlayerStats bs) ->
  latestDateOf bs (name s) (lastPlayed s).
Proof.
  intros Hwf Hin.
  destruct (output_inv _ _ Hin) as [s0 [Hk [Hsum ->]]].
  change (lastPlayed (withFavorite bs s0)) with (lastPlayed s0).
  change (name (withFavorite bs s0)) with (name s0) in *.
  destruct (summarizeFrom_last _ _ _
              (fun b Hb => Hwf b (proj1 (proj1 (contributions_In _ _ _) Hb)))
              Hsum)
    as [c [Pc [[b [Hb Eb]] Hall]]].
  exists c. split; [exact Pc|]. split.
  - apply contributions_In in Hb. exists b. tauto.
  - intros b' Hb' Hn. apply Hall. apply contributions_In. auto.
Qed.

End LastPlayed.

(** ** Blank entries *)

Section BlankEntries.
Import PlayerStats.

Lemma processBooking_blank statsMap b :
  forallb isBlank (players b) = true -> processBooking statsMap b = statsMap.
Proof.
  unfold processBooking. generalize (players b) as ps.
  induction ps as [|p ps IH]; simpl; [reflexivity|].
  rewrite andb_true_iff. intros [Hp Hps].
  rewrite (processPlayer_blank _ _ _ Hp). apply IH. exact Hps.
Qed.

Lemma includes_blank_players b n :
  forallb isBlank (players b) = true -> isBlank n = false ->
  includes (players b) n = false.
Proof.
  intros Hall Hn. destruct (includes (players b) n) eqn:E; [|reflexivity].
  apply includes_In in E. rewrite forallb_forall in Hall.
  rewrite (Hall _ E) in Hn. discriminate.
Qed.

Lemma groupingPass_drop_blank before b after :
  forallb isBlank (players b) = true ->
  groupingPass (before ++ b :: after) = groupingPass (before ++ after).
Proof.
  intros H. unfold groupingPass. rewrite !fold_left_app. simpl.
  rewrite (processBooking_blank _ _ H). reflexivity.
Qed.

Lemma tallyCourts_drop before b after n :
  includes (players b) n = false ->
  tallyCourts (before ++ b :: after) n = tallyCourts (before ++ after) n.
Proof.
  intros H. unfold tallyCourts. rewrite !fold_left_app. simpl.
  unfold tallyBooking at 2. rewrite H. reflexivity.
Qed.

Lemma calculatePlayerStats_drop_blank before b after :
  forallb isBlank (players b) = true ->
  calculatePlayerStats (before ++ b :: after)
  = calculatePlayerStats (before ++ after).
Proof.
  intros H. unfold calculatePlayerStats, favoritePass.
  rewrite (groupingPass_drop_blank _ _ _ H).
  f_equal. f_equal. apply map_ext_in. intros [k s0] Hin.
  apply groupingPass_entry in Hin. destruct Hin as [Hk _].
  unfold setFavorite.
  rewrite (tallyCourts_drop _ _ _ _ (includes_blank_players _ _ H Hk)).
  reflexivity.
Qed.

Lemma output_names_nonblank bs :
  Forall (fun s => isBlank (name s) = false) (calculatePlayerStats bs).
Proof.
  apply Forall_forall. intros s Hin.
  destruct (output_inv _ _ Hin) as [s0 [Hk _]]. exact Hk.
Qed.

End BlankEntries.

(** ** Repeated names in one booking *)

Section RepeatedNames.
Import PlayerStats.

Lemma processBooking_total statsMap b n :
  isBlank n = false ->
  totalOf (JsMap.get str_eqb (processBooking statsMap b) n)
  = totalOf (JsMap.get str_eqb statsMap n) + countName n (players b).
Proof.
  intros Hn. unfold processBooking.
  rewrite (processPlayers_get _ _ Hn), summarizeFrom_total, length_map.
  reflexivity.
Qed.

Lemma sumZ_map_const {A} (l : list A) (v : Z) :
  sumZ (map (fun _ => v) l) = Z.of_nat (List.length l) * v.
Proof.
  induction l as [|x l IH]; [reflexivity|].
  change (sumZ (map (fun _ => v) (x :: l)))
    with (v + sumZ (map (fun _ => v) l)).
  rewrite IH. change (List.length (x :: l)) with (S (List.length l)).
  rewrite Nat2Z.inj_succ. lia.
Qed.

Lemma processBooking_hours statsMap b n :
  isBlank n = false ->
  hoursOf (JsMap.get str_eqb (processBooking statsMap b) n)
  = hoursOf (JsMap.get str_eqb statsMap n)
    + countName n (players b) * matchDuration b.
Proof.
  intros Hn. unfold processBooking.
  rewrite (processPlayers_get _ _ Hn), summarizeFrom_hours, map_map.
  rewrite sumZ_map_const. reflexivity.
Qed.

Lemma countName_pos n ps : 0 < countName n ps -> In n ps.
Proof.
  unfold countName. intros H.
  destruct (filter (fun p => str_eqb p n) ps) as [|x l] eqn:F;
    [simpl in H; lia|].
  assert (Hx : In x (filter (fun p => str_eqb p n) ps))
    by (rewrite F; left; reflexivity).
  apply filter_In in Hx. destruct Hx as [Hx E].
  apply str_eqb_eq in E. subst. exact Hx.
Qed.

Lemma tallyBooking_count n courtCounts b c :
  In n (players b) ->
  countOf (tallyBooking n courtCounts b) c
  = countOf courtCounts c + (if c =? court b then 1 else 0).
Proof.
  intros Hin. unfold tallyBooking.
  rewrite (proj2 (includes_In _ _) Hin).
  apply (tallyCourt_count courtCounts (court b) c).
Qed.

End RepeatedNames.

(* ================================================================= *)
(** * Player statistics: the stated properties *)

Section PlayerStatsClaims.
Import PlayerStats.

(** C1, as stated, fails: the grouping key is the entry as written, not
    its trimmed form.  ["Alice"] and [" Alice"] have the same trimmed
    string, yet the output holds two records with one match each. *)
Lemma C1_trimmed_names_counterexample :
  trim (lit " Alice") = trim (lit "Alice") /\
  calculatePlayerStats Examples.spacedNames =
    [ {| name := lit "Alice"; totalMatches := 1; singlesMatches := 1;
         doublesMatches := 0; totalHours := 1; favoriteCourt := 1;
         lastPlayed := lit "2024-01-07" |};
      {| name := lit " Alice"; totalMatches := 1; singlesMatches := 1;
         doublesMatches := 0; totalHours := 1; favoriteCourt := 1;
         lastPlayed := lit "2024-01-07" |} ].
Proof. split; vm_compute; reflexivity. Qed.

(** C1, amended: two player entries contribute to the same PlayerStat if
    and only if they are not blank and are the same string as written
    (case-sensitive, no trimming, no other normalization).  The output
    has exactly one record per distinct non-blank entry string, and the
    record of a name counts exactly the entries equal to that name. *)
Theorem C1_raw_name_grouping (bs : list Booking) :
  NoDup (map name (calculatePlayerStats bs)) /\
  (forall n, In n (map name (calculatePlayerStats bs)) <->
             isBlank n = false /\ exists b, In b bs /\ In n (players b)) /\
  Forall (fun s => totalMatches s = entryCount (name s) bs)
         (calculatePlayerStats bs).
Proof.
  split; [|split].
  - eapply Permutation_NoDup;
      [apply Permutation_sym, output_names_perm | apply groupingPass_NoDup].
  - intros n. rewrite <- groupingPass_keys. split; apply Permutation_in;
      [apply output_names_perm | apply Permutation_sym, output_names_perm].
  - apply Forall_forall. intros s Hin.
    destruct (output_inv _ _ Hin) as [s0 [Hk [Hsum ->]]].
    change (totalMatches (withFavorite bs s0)) with (totalOf (Some s0)).
    change (name (withFavorite bs s0)) with (name s0) in *.
    rewrite <- Hsum, summarizeFrom_total, contributions_length.
    reflexivity.
Qed.

(** C2: for every booking collection and every record of the output,
    favoriteCourt is the court occurring most often among the bookings
    whose players list contains the player, ties going to the court met
    first in input order; a player met on courts 3 then 1, once each,
    gets favoriteCourt 3. *)
Theorem C2_favoriteCourt_first_most_frequent (bs : list Booking) :
  Forall (fun s => firstMostFrequent (courtsOf bs (name s)) (favoriteCourt s))
         (calculatePlayerStats bs) /\
  courtsOf Examples.tiedCourts (lit "Ann") = [3; 1] /\
  map (fun s => (name s, favoriteCourt s))
      (calculatePlayerStats Examples.tiedCourts) = [(lit "Ann", 3)].
Proof.
  split; [|split; vm_compute; reflexivity].
  apply Forall_forall. intros s Hin.
  assert (Hname : In (name s) (map name (calculatePlayerStats bs)))
    by (apply in_map; exact Hin).
  apply (Permutation_in _ (output_names_perm bs)) in Hname.
  apply groupingPass_keys in Hname. destruct Hname as [_ Hex].
  destruct (output_inv _ _ Hin) as [s0 [_ [_ ->]]].
  rewrite favoriteCourt_withFavorite.
  change (name (withFavorite bs s0)) with (name s0) in *.
  rewrite tallyCourts_courtsOf.
  apply pickFavorite_tally, courtsOf_nonempty. exact Hex.
Qed.

(** C3: for every booking collection whose dates are calendar dates and
    every record of the output, lastPlayed is the date of one of the
    bookings the player appears in, and no booking the player appears in
    has a later date in calendar order. *)
Theorem C3_lastPlayed_latest (bs : list Booking) :
  datesWellFormed bs ->
  Forall (fun s => latestDateOf bs (name s) (lastPlayed s))
         (calculatePlayerStats bs).
Proof.
  intros Hwf. apply Forall_forall. intros s Hin.
  apply output_lastPlayed; assumption.
Qed.

(** C3 across a year boundary: 2023-12-30 and 2024-01-05 give
    2024-01-05, whichever comes first in the input. *)
Lemma C3_lastPlayed_latest_witness :
  datesWellFormed Examples.yearBoundary /\
  Forall (fun s => latestDateOf Examples.yearBoundary (name s) (lastPlayed s))
         (calculatePlayerStats Examples.yearBoundary) /\
  map (fun s => (name s, lastPlayed s))
      (calculatePlayerStats Examples.yearBoundary)
  = [(lit "Ann", lit "2024-01-05"); (lit "Bob", lit "2023-12-30");
     (lit "Cy", lit "2024-01-05")].
Proof.
  assert (Hwf : datesWellFormed Examples.yearBoundary).
  { intros b [<-|[<-|[<-|[]]]]; vm_compute; discriminate. }
  split; [exact Hwf|].
  split; [exact (C3_lastPlayed_latest Examples.yearBoundary Hwf)|].
  vm_compute; reflexivity.
Defined.

(** C4: for every booking collection the output is sorted in descending
    order of totalMatches; players with 3, 5 and 1 matches come out in
    the order 5, 3, 1. *)
Theorem C4_sorted_by_totalMatches (bs : list Booking) :
  sortedDesc (calculatePlayerStats bs) /\
  map totalMatches
      (JsMap.values (favoritePass Examples.threeFiveOne
                       (groupingPass Examples.threeFiveOne))) = [3; 5; 1] /\
  map totalMatches (calculatePlayerStats Examples.threeFiveOne) = [5; 3; 1].
Proof.
  split; [apply Array_sort_sortedDesc | split; vm_compute; reflexivity].
Qed.

(** C5: for every booking collection and every record of the output,
    singlesMatches + doublesMatches = totalMatches, and the sums over the
    whole output agree. *)
Theorem C5_singles_plus_doubles (bs : list Booking) :
  Forall (fun s => singlesMatches s + doublesMatches s = totalMatches s)
         (calculatePlayerStats bs) /\
  sumZ (map singlesMatches (calculatePlayerStats bs))
  + sumZ (map doublesMatches (calculatePlayerStats bs))
  = sumZ (map totalMatches (calculatePlayerStats bs)).
Proof.
  assert (H : Forall
                (fun s => singlesMatches s + doublesMatches s = totalMatches s)
                (calculatePlayerStats bs)).
  { apply Forall_forall. intros s Hin.
    destruct (output_inv _ _ Hin) as [s0 [_ [Hsum ->]]].
    change (singlesMatches s0 + doublesMatches s0 = totalMatches s0).
    eapply summarizeFrom_split; [|exact Hsum]. discriminate. }
  split; [exact H | apply sumZ_split; exact H].
Qed.

(** C6: a player entry that is empty or all white space is left out of
    the grouping key and of every count: meeting it leaves the statistics
    map as it was, no output record has a blank name, and a booking whose
    players are all blank changes nothing in the output. *)
Theorem C6_blank_entries_excluded
    (booking : Booking) (statsMap : statsMap_t) (playerName : jsstring)
    (before after : list Booking) (b : Booking) :
  forallb isWhiteSpace playerName = true ->
  forallb (forallb isWhiteSpace) (players b) = true ->
  processPlayer booking statsMap playerName = statsMap /\
  processBooking statsMap b = statsMap /\
  calculatePlayerStats (before ++ b :: after)
  = calculatePlayerStats (before ++ after) /\
  Forall (fun s => forallb isWhiteSpace (name s) = false)
         (calculatePlayerStats (before ++ b :: after)).
Proof.
  intros Hp Hb.
  apply isBlank_spec in Hp.
  assert (Hb' : forallb isBlank (players b) = true).
  { rewrite forallb_forall in *. intros p Hin.
    apply isBlank_spec. apply Hb. exact Hin. }
  split; [apply processPlayer_blank; exact Hp|].
  split; [apply processBooking_blank; exact Hb'|].
  split; [apply calculatePlayerStats_drop_blank; exact Hb'|].
  eapply Forall_impl; [|apply output_names_nonblank].
  intros s Hs. simpl in Hs.
  destruct (forallb isWhiteSpace (name s)) eqn:E; [|reflexivity].
  apply isBlank_spec in E. congruence.
Qed.

(** C6 on a booking of blank entries between two ordinary bookings. *)
Lemma C6_blank_entries_excluded_witness :
  forallb isWhiteSpace (lit "  ") = true /\
  forallb (forallb isWhiteSpace) (players Examples.blankBooking) = true /\
  processPlayer Examples.blankBooking [] (lit "  ") = [] /\
  processBooking [] Examples.blankBooking = [] /\
  calculatePlayerStats
    (Examples.tiedCourts ++ Examples.blankBooking :: Examples.yearBoundary)
  = calculatePlayerStats (Examples.tiedCourts ++ Examples.yearBoundary) /\
  Forall (fun s => forallb isWhiteSpace (name s) = false)
    (calculatePlayerStats
       (Examples.tiedCourts ++ Examples.blankBooking
          :: Examples.yearBoundary)).
Proof.
  split; [reflexivity|]. split; [reflexivity|].
  apply (C6_blank_entries_excluded Examples.blankBooking [] (lit "  ")
           Examples.tiedCourts Examples.yearBoundary Examples.blankBooking);
    reflexivity.
Defined.

(** C9: when a non-blank name occurs k > 1 times in the players list of
    one booking, the grouping pass counts the booking k times for the
    player (totalMatches grows by k, totalHours by k times the booking's
    duration), while the favourite-court pass counts the booking's court
    once. *)
Theorem C9_repeated_name_counts
    (statsMap : statsMap_t) (courtCounts : courtCounts_t)
    (b : Booking) (n : jsstring) (k : Z) :
  isBlank n = false ->
  countName n (players b) = k ->
  1 < k ->
  totalOf (JsMap.get str_eqb (processBooking statsMap b) n)
  = totalOf (JsMap.get str_eqb statsMap n) + k /\
  hoursOf (JsMap.get str_eqb (processBooking statsMap b) n)
  = hoursOf (JsMap.get str_eqb statsMap n) + k * matchDuration b /\
  forall c, countOf (tallyBooking n courtCounts b) c
            = countOf courtCounts c + (if c =? court b then 1 else 0).
Proof.
  intros Hn Hk Hgt. subst k.
  split; [apply processBooking_total; exact Hn|].
  split; [apply processBooking_hours; exact Hn|].
  intros c. apply tallyBooking_count, countName_pos. lia.
Qed.

(** C9 on a doubles booking that lists the same name twice. *)
Lemma C9_repeated_name_counts_witness :
  isBlank (lit "Ann") = false /\
  countName (lit "Ann") (players Examples.repeatedName) = 2 /\
  1 < 2 /\
  totalOf (JsMap.get str_eqb (processBooking [] Examples.repeatedName)
             (lit "Ann")) = 0 + 2 /\
  hoursOf (JsMap.get str_eqb (processBooking [] Examples.repeatedName)
             (lit "Ann")) = 0 + 2 * 2 /\
  forall c, countOf (tallyBooking (lit "Ann") [] Examples.repeatedName) c
            = 0 + (if c =? 2 then 1 else 0).
Proof.
  split; [reflexivity|]. split; [reflexivity|]. split; [lia|].
  apply (C9_repeated_name_counts [] [] Examples.repeatedName (lit "Ann") 2);
    [reflexivity | reflexivity | lia].
Defined.

End PlayerStatsClaims.

(* ================================================================= *)
(** * Regular expressions: the matcher decides the language *)

Section RegexFacts.
Import Regex.

Lemma lang_nil_nullable r s : lang r s -> s = [] -> nullable r = true.
Proof.
  induction 1 as [ | p c Hp | a b s1 s2 _ IH1 _ IH2 | a b s _ IH
                 | a b s _ IH | a | a s1 s2 _ _ _ _ ]; intros E; simpl;
    try reflexivity; try discriminate.
  - apply app_eq_nil in E. destruct E as [E1 E2].
    rewrite IH1, IH2 by assumption. reflexivity.
  - rewrite IH by assumption. reflexivity.
  - rewrite IH by assumption. apply orb_true_r.
Qed.

Lemma nullable_lang r : nullable r = true -> lang r [].
Proof.
  induction r as [ | | p | a IHa b IHb | a IHa b IHb | a _ ]; simpl;
    intros H; try discriminate.
  - constructor.
  - apply andb_true_iff in H. destruct H as [Ha Hb].
    change (@nil N) with (@nil N ++ []). constructor; auto.
  - apply orb_true_iff in H.
    destruct H as [H|H]; [apply lang_Alt_l | apply lang_Alt_r]; auto.
  - constructor.
Qed.

Lemma deriv_sound c r : forall s, lang (deriv c r) s -> lang r (c :: s).
Proof.
  induction r as [ | | p | a IHa b IHb | a IHa b IHb | a IHa ];
    intros s H; simpl in H.
  - inversion H.
  - inversion H.
  - destruct (p c) eqn:E; inversion H; subst. constructor. exact E.
  - destruct (nullable a) eqn:Na.
    + inversion H as [ | | | ? ? ? HL | ? ? ? HR | | ]; subst.
      * inversion HL as [ | | ? ? s1 s2 H1 H2 | | | | ]; subst.
        change (c :: s1 ++ s2) with ((c :: s1) ++ s2).
        constructor; [apply IHa; exact H1 | exact H2].
      * change (c :: s) with ([] ++ c :: s).
        constructor; [apply nullable_lang; exact Na | apply IHb; exact HR].
    + inversion H as [ | | ? ? s1 s2 H1 H2 | | | | ]; subst.
      change (c :: s1 ++ s2) with ((c :: s1) ++ s2).
      constructor; [apply IHa; exact H1 | exact H2].
  - inversion H; subst;
      [apply lang_Alt_l; apply IHa | apply lang_Alt_r; apply IHb];
      assumption.
  - inversion H as [ | | ? ? s1 s2 H1 H2 | | | | ]; subst.
    change (c :: s1 ++ s2) with ((c :: s1) ++ s2).
    apply lang_Star_cons; [apply IHa; exact H1 | exact H2].
Qed.

Lemma deriv_complete c r s' :
  lang r s' -> forall s, s' = c :: s -> lang (deriv c r) s.
Proof.
  induction 1 as [ | p c0 Hp | a b s1 s2 H1 IH1 H2 IH2 | a b s0 _ IH
                 | a b s0 _ IH | a | a s1 s2 H1 IH1 H2 IH2 ];
    intros s E; simpl.
  - discriminate.
  - inversion E; subst. rewrite Hp. constructor.
  - destruct s1 as [|x s1]; simpl in E.
    + subst s2. rewrite (lang_nil_nullable _ _ H1 eq_refl).
      apply lang_Alt_r. apply IH2. reflexivity.
    + inversion E; subst.
      assert (HS : lang (Seq (deriv c a) b) (s1 ++ s2))
        by (constructor; [apply IH1; reflexivity | exact H2]).
      destruct (nullable a); [apply lang_Alt_l|]; exact HS.
  - apply lang_Alt_l. apply IH. exact E.
  - apply lang_Alt_r. apply IH. exact E.
  - discriminate.
  - destruct s1 as [|x s1]; simpl in E.
    + apply IH2. exact E.
    + inversion E; subst.
      constructor; [apply IH1; reflexivity | exact H2].
Qed.

(** The derivative matcher accepts exactly the language. *)
Lemma test_spec s : forall r, test r s = true <-> lang r s.
Proof.
  induction s as [|c s IH]; intros r; simpl.
  - split; [apply nullable_lang | intros H; eapply lang_nil_nullable; eauto].
  - rewrite IH. split; [apply deriv_sound|].
    intros H. eapply deriv_complete; eauto.
Qed.

Lemma lang_Star_Class p s :
  lang (Star (Class p)) s <-> Forall (fun c => p c = true) s.
Proof.
  split.
  - intros H. remember (Star (Class p)) as r eqn:Er.
    induction H as [ | | | | | a | a s1 s2 H1 _ H2 IH2 ];
      try discriminate; [constructor|].
    inversion Er; subst a. inversion H1; subst. simpl.
    constructor; [assumption | apply IH2; reflexivity].
  - induction 1 as [|c s Hc _ IH]; [constructor|].
    change (c :: s) with ([c] ++ s).
    apply lang_Star_cons; [constructor; exact Hc | exact IH].
Qed.

Lemma lang_Plus_Class p s :
  lang (Plus (Class p)) s <-> s <> [] /\ Forall (fun c => p c = true) s.
Proof.
  unfold Plus. split.
  - intros H. inversion H as [ | | ? ? s1 s2 H1 H2 | | | | ]; subst.
    inversion H1; subst. apply lang_Star_Class in H2. simpl.
    split; [discriminate | constructor; assumption].
  - intros [Hne Hall]. destruct s as [|c s]; [congruence|].
    inversion Hall; subst. change (c :: s) with ([c] ++ s).
    constructor; [constructor; assumption | apply lang_Star_Class; assumption].
Qed.

Lemma lang_Class_eqb k s : lang (Class (N.eqb k)) s <-> s = [k].
Proof.
  split.
  - intros H. inversion H; subst.
    match goal with E : N.eqb _ _ = true |- _ => apply N.eqb_eq in E end.
    subst. reflexivity.
  - intros ->. constructor. apply N.eqb_refl.
Qed.

End RegexFacts.

(* ================================================================= *)
(** * Email notifications *)

Section EmailFacts.
Import EmailNotifications.

(** The regular expression of [validateEmails] accepts exactly the shape
    local@domain.tld. *)
Lemma emailRegex_shape s :
  Regex.test emailRegex s = true <-> emailShape s.
Proof.
  rewrite test_spec. unfold emailRegex, emailShape. split.
  - intros H.
    inversion H as [ | | ? ? l r1 Hl H1 | | | | ]; subst; clear H.
    inversion H1 as [ | | ? ? a r2 Ha H2 | | | | ]; subst; clear H1.
    inversion H2 as [ | | ? ? d r3 Hd H3 | | | | ]; subst; clear H2.
    inversion H3 as [ | | ? ? dot t Hdot Ht | | | | ]; subst; clear H3.
    apply lang_Plus_Class in Hl, Hd, Ht.
    apply lang_Class_eqb in Ha, Hdot. subst a dot.
    destruct Hl as [Nl Fl], Hd as [Nd Fd], Ht as [Nt Ft].
    exists l, d, t. repeat split; try assumption.
    apply Forall_app; split; [|apply Forall_app; split]; assumption.
  - intros [l [d [t [-> [Nl [Nd [Nt Hall]]]]]]].
    apply Forall_app in Hall. destruct Hall as [Fl Hall].
    apply Forall_app in Hall. destruct Hall as [Fd Ft].
    constructor; [apply lang_Plus_Class; auto|].
    constructor; [apply lang_Class_eqb; reflexivity|].
    constructor; [apply lang_Plus_Class; auto|].
    constructor; [apply lang_Class_eqb; reflexivity|].
    apply lang_Plus_Class; auto.
Qed.

Lemma emailShape_nonempty s : emailShape s -> truthy s = true.
Proof.
  intros [l [d [t [-> [Nl _]]]]]. destruct l; [congruence | reflexivity].
Qed.

Lemma emailOk_spec email : emailOk email = true <-> emailShape (trim email).
Proof.
  unfold emailOk. rewrite andb_true_iff, emailRegex_shape.
  split; [tauto|]. intros H. split; [apply emailShape_nonempty|]; exact H.
Qed.

Lemma validateEmails_spec st email :
  In email (validateEmails st) <->
  In email (emailAddresses st) /\ emailShape (trim email).
Proof.
  unfold validateEmails. rewrite filter_In, emailOk_spec. tauto.
Qed.

Lemma sends_map_NotifyEmail reqs rest :
  (forall e, In e rest -> match e with NotifyEmail _ => False | _ => True end) ->
  sends (map NotifyEmail reqs ++ rest) = reqs.
Proof.
  intros Hrest. unfold sends. rewrite flat_map_app.
  assert (H1 : flat_map (fun e => match e with
                                  | NotifyEmail o => [o]
                                  | _ => []
                                  end) (map NotifyEmail reqs) = reqs).
  { induction reqs as [|r reqs IH]; simpl; [reflexivity|].
    f_equal. exact IH. }
  rewrite H1.
  assert (H2 : flat_map (fun e => match e with
                                  | NotifyEmail o => [o]
                                  | _ => []
                                  end) rest = []).
  { induction rest as [|e rest IH]; simpl; [reflexivity|].
    rewrite IH by (intros e' He'; apply Hrest; right; exact He').
    specialize (Hrest e (or_introl eq_refl)).
    destruct e; [contradiction | reflexivity | reflexivity]. }
  rewrite H2. apply app_nil_r.
Qed.

(** When no call throws, every request was made and has its promise. *)
Lemma callFrom_returned net reqs : forall i promises,
  snd (callFrom net i reqs) = Some promises ->
  fst (callFrom net i reqs) = reqs /\
  List.length promises = List.length reqs.
Proof.
  induction reqs as [|r reqs IH]; intros i promises; cbn [callFrom].
  - cbn [snd fst]. intros H. inversion H. split; reflexivity.
  - destruct (net i r) as [|p]; cbn [snd]; [discriminate|].
    specialize (IH (S i)).
    destruct (callFrom net (S i) reqs) as [made [ps|]]; cbn [snd fst] in *;
      [|discriminate].
    intros H. inversion H; subst; clear H.
    destruct (IH ps eq_refl) as [H1 H2]. rewrite H1.
    cbn [List.length]. split; [reflexivity | lia].
Qed.

(** When a call throws, the calls made are the requests up to and
    including that one. *)
Lemma callFrom_thrown net reqs : forall i,
  snd (callFrom net i reqs) = None ->
  exists k, (k < List.length reqs)%nat /\
            fst (callFrom net i reqs) = firstn (S k) reqs.
Proof.
  induction reqs as [|r reqs IH]; intros i; cbn [callFrom].
  - discriminate.
  - destruct (net i r) as [|p]; cbn [snd fst].
    + intros _. exists 0%nat. cbn [List.length firstn]. split; [lia|].
      reflexivity.
    + specialize (IH (S i)).
      destruct (callFrom net (S i) reqs) as [made [ps|]];
        cbn [snd fst option_map] in *; [discriminate|].
      intros _. destruct (IH eq_refl) as [k [Hk Hm]].
      exists (S k). cbn [List.length]. split; [lia|].
      rewrite Hm. reflexivity.
Qed.

Lemma callFrom_made_incl net reqs i :
  incl (fst (callFrom net i reqs)) reqs.
Proof.
  destruct (snd (callFrom net i reqs)) as [ps|] eqn:E.
  - destruct (callFrom_returned _ _ _ _ E) as [-> _]. apply incl_refl.
  - destruct (callFrom_thrown _ _ _ E) as [k [_ ->]].
    intros x Hx. rewrite <- (firstn_skipn (S k) reqs).
    apply in_or_app. left. exact Hx.
Qed.

End EmailFacts.

Section EmailClaims.
Import EmailNotifications.

Lemma sendNotifications_none_valid onEmailSent net st :
  validateEmails st = [] ->
  sendNotifications onEmailSent net st =
  (setSendStatus error
     (setErrorMessage
        (lit "Please enter at least one valid email address.") st), []).
Proof. unfold sendNotifications. intros ->. reflexivity. Qed.

(** Past the two input checks: the three ways the [try] block ends. *)
Lemma sendNotifications_dispatch onEmailSent net st :
  validateEmails st <> [] ->
  truthy (trim (subject (emailTemplate st))) = true ->
  truthy (trim (message (emailTemplate st))) = true ->
  sendNotifications onEmailSent net st =
  let st1 := setErrorMessage [] (setSendStatus idle (setIsSending true st)) in
  let sent := map NotifyEmail (fst (callFrom net 0 (requestsOf st))) in
  if allCallsReturn net st then
    if failures (batchResults net st) =? 0 then
      match onEmailSent with
      | Some abrupt =>
          (setIsSending false (catchBlock (setSendStatus success st1)),
           sent ++ [OnEmailSent])
      | Some normal =>
          (setIsSending false (setSendStatus success st1),
           sent ++ [OnEmailSent] ++ [SetTimeout 2000 closeAfterSuccess])
      | None =>
          (setIsSending false (setSendStatus success st1),
           sent ++ [SetTimeout 2000 closeAfterSuccess])
      end
    else
      (setIsSending false
         (setSendStatus error
            (setErrorMessage
               (failureMessage (failures (batchResults net st))
                  (Z.of_nat (List.length (validateEmails st)))) st1)),
       sent)
  else (setIsSending false (catchBlock st1), sent).
Proof.
  intros Hne Hs Hm. unfold sendNotifications.
  destruct (validateEmails st) as [|e es] eqn:Ev; [congruence|].
  change (Z.of_nat (List.length (e :: es)) =? 0) with false.
  cbv iota. rewrite Hs, Hm. cbn [negb orb].
  unfold allCallsReturn, batchResults, requestsOf. rewrite Ev.
  cbv zeta. cbn [emailTemplate setErrorMessage setSendStatus setIsSending].
  destruct (callFrom net 0 (map (mailFor (emailTemplate st)) (e :: es)))
    as [made [promises|]]; reflexivity.
Qed.

Lemma sends_only_NotifyEmail made :
  sends (map NotifyEmail made) = made.
Proof.
  rewrite <- (app_nil_r (map NotifyEmail made)).
  apply sends_map_NotifyEmail. intros x [].
Qed.

Lemma sends_then_callback made :
  sends (map NotifyEmail made ++ [OnEmailSent]) = made.
Proof.
  apply sends_map_NotifyEmail. intros x [<-|[]]. exact I.
Qed.

Lemma sends_then_timer made ms callback :
  sends (map NotifyEmail made ++ [SetTimeout ms callback]) = made.
Proof.
  apply sends_map_NotifyEmail. intros x [<-|[]]. exact I.
Qed.

Lemma sends_then_callback_timer made ms callback :
  sends (map NotifyEmail made ++ [OnEmailSent] ++ [SetTimeout ms callback])
  = made.
Proof.
  apply sends_map_NotifyEmail. intros x [<-|[<-|[]]]; exact I.
Qed.

(** The send calls of a run: none, or the calls made by the map. *)
Lemma sendNotifications_sends onEmailSent net st :
  sends (snd (sendNotifications onEmailSent net st)) = [] \/
  sends (snd (sendNotifications onEmailSent net st))
  = fst (callFrom net 0 (requestsOf st)).
Proof.
  destruct (validateEmails st) as [|e es] eqn:Ev.
  - left. rewrite sendNotifications_none_valid by exact Ev. reflexivity.
  - destruct (truthy (trim (subject (emailTemplate st)))) eqn:Hs;
      [destruct (truthy (trim (message (emailTemplate st)))) eqn:Hm|].
    + right. rewrite sendNotifications_dispatch
        by (try assumption; rewrite Ev; discriminate).
      cbv zeta.
      destruct (allCallsReturn net st); cbn [snd];
        [|apply sends_only_NotifyEmail].
      destruct (failures (batchResults net st) =? 0); cbn [snd];
        [|apply sends_only_NotifyEmail].
      destruct onEmailSent as [[|]|]; cbn [snd].
      * apply sends_then_callback_timer.
      * apply sends_then_callback.
      * apply sends_then_timer.
    + left. unfold sendNotifications. rewrite Ev.
      change (Z.of_nat (List.length (e :: es)) =? 0) with false.
      cbv iota. rewrite Hs, Hm. reflexivity.
    + left. unfold sendNotifications. rewrite Ev.
      change (Z.of_nat (List.length (e :: es)) =? 0) with false.
      cbv iota. rewrite Hs. reflexivity.
Qed.

Lemma sends_incl_requests onEmailSent net st :
  incl (sends (snd (sendNotifications onEmailSent net st))) (requestsOf st).
Proof.
  destruct (sendNotifications_sends onEmailSent net st) as [E|E]; rewrite E.
  - intros x [].
  - apply callFrom_made_incl.
Qed.

(** C7, as stated, fails: the shape check is not applied to the address
    as entered.  [" bob@club.org "] contains white space and does not
    have the shape local@domain.tld, yet it is kept as a valid recipient
    and a send is issued for it. *)
Lemma C7_entered_address_counterexample :
  In (lit " bob@club.org ") (emailAddresses Examples.spacedRecipient) /\
  existsb isWhiteSpace (lit " bob@club.org ") = true /\
  ~ emailShape (lit " bob@club.org ") /\
  validateEmails Examples.spacedRecipient = [lit " bob@club.org "] /\
  map Mail.to
    (sends (snd (sendNotifications None Examples.secondFails
                   Examples.spacedRecipient)))
  = [lit " bob@club.org "].
Proof.
  split; [left; reflexivity|]. split; [reflexivity|].
  split; [|split; vm_compute; reflexivity].
  intros H. apply emailRegex_shape in H. vm_compute in H. discriminate.
Qed.

(** C7, amended: sendNotifications keeps an entered address exactly when
    the address with leading and trailing white space removed has the
    shape local@domain.tld (no white space, one '@', a '.' after it with
    text on both sides), so every address whose trimmed form fails the
    check is excluded and mail goes to accepted addresses only;
    [foo@bar] is rejected and [foo@bar.com] accepted; with no valid
    recipient the call ends in the error status without any send. *)
Theorem C7_invalid_recipients_excluded
    (onEmailSent : option Completion)
    (net : nat -> Mail.options -> CallOutcome) (st : State) :
  (forall email,
     In email (validateEmails st) <->
     In email (emailAddresses st) /\ emailShape (trim email)) /\
  (forall o, In o (sends (snd (sendNotifications onEmailSent net st))) ->
             In (Mail.to o) (validateEmails st)) /\
  (validateEmails st = [] ->
     sendStatus (fst (sendNotifications onEmailSent net st)) = error /\
     errorMessage (fst (sendNotifications onEmailSent net st))
     = lit "Please enter at least one valid email address." /\
     snd (sendNotifications onEmailSent net st) = []) /\
  emailOk (lit "foo@bar") = false /\
  emailOk (lit "foo@bar.com") = true.
Proof.
  split; [intros email; apply validateEmails_spec|].
  split.
  { intros o Ho. apply sends_incl_requests in Ho.
    unfold requestsOf in Ho. apply in_map_iff in Ho.
    destruct Ho as [email [<- He]]. exact He. }
  split; [|split; vm_compute; reflexivity].
  intros Hnone. rewrite (sendNotifications_none_valid _ _ _ Hnone).
  repeat split.
Qed.

(** C7 on a dialog whose addresses all fail the check. *)
Lemma C7_invalid_recipients_excluded_witness :
  validateEmails Examples.noValidRecipient = [] /\
  sendStatus (fst (sendNotifications None Examples.secondFails
                     Examples.noValidRecipient)) = error /\
  snd (sendNotifications None Examples.secondFails
         Examples.noValidRecipient) = [].
Proof.
  split; [reflexivity|].
  destruct (C7_invalid_recipients_excluded None Examples.secondFails
              Examples.noValidRecipient) as [_ [_ [H _]]].
  destruct (H eq_refl) as [Hs [_ Hl]].
  split; [exact Hs | exact Hl].
Defined.



End EmailClaims.

(* ================================================================= *)
(** * Booking handlers *)

Section AppClaims.
Import App.

Lemma cellCount_app bs1 bs2 c t :
  cellCount (bs1 ++ bs2) c t = cellCount bs1 c t + cellCount bs2 c t.
Proof.
  unfold cellCount. rewrite filter_app, length_app, Nat2Z.inj_add.
  reflexivity.
Qed.

Lemma cellCount_withoutCell_le e bs c t :
  cellCount (withoutCell e bs) c t <= cellCount bs c t.
Proof.
  unfold cellCount, withoutCell.
  induction bs as [|b bs IH]; simpl; [lia|].
  destruct (negb (atCell e b)); simpl;
    destruct ((court b =? c) && str_eqb (timeSlot b) t); simpl in *; lia.
Qed.

Lemma cellCount_withoutCell_same e bs :
  cellCount (withoutCell e bs) (Editing.court e) (Editing.timeSlot e) = 0.
Proof.
  unfold cellCount, withoutCell.
  induction bs as [|b bs IH]; simpl; [reflexivity|].
  destruct (atCell e b) eqn:E; simpl; [exact IH|].
  unfold atCell in E. rewrite E. exact IH.
Qed.

Lemma cellCount_single b c t :
  cellCount [b] c t
  = if (court b =? c) && str_eqb (timeSlot b) t then 1 else 0.
Proof.
  unfold cellCount. simpl.
  destruct ((court b =? c) && str_eqb (timeSlot b) t); reflexivity.
Qed.

Lemma withoutCell_atMostOne e bs :
  atMostOnePerCell bs -> atMostOnePerCell (withoutCell e bs).
Proof.
  intros H c t. specialize (H c t).
  pose proof (cellCount_withoutCell_le e bs c t). lia.
Qed.

Lemma append_atMostOne e bs nb :
  atMostOnePerCell bs ->
  court nb = Editing.court e -> timeSlot nb = Editing.timeSlot e ->
  atMostOnePerCell (withoutCell e bs ++ [nb]).
Proof.
  intros H Hc Ht c t. rewrite cellCount_app, cellCount_single.
  destruct ((court nb =? c) && str_eqb (timeSlot nb) t) eqn:E.
  - apply andb_true_iff in E. destruct E as [E1 E2].
    apply Z.eqb_eq in E1. apply str_eqb_eq in E2.
    rewrite <- E1, <- E2, Hc, Ht, cellCount_withoutCell_same. lia.
  - specialize (H c t).
    pose proof (cellCount_withoutCell_le e bs c t). lia.
Qed.

Lemma enteredPlayers_nil st :
  enteredPlayers st = [] <-> forallb isBlank (playerInputs st) = true.
Proof.
  unfold enteredPlayers, isBlank.
  induction (playerInputs st) as [|p ps IH]; simpl; [tauto|].
  destruct (truthy (trim p)); simpl; [split; discriminate | exact IH].
Qed.

Lemma handleSaveBooking_blank now st e :
  editingBooking st = Some e ->
  enteredPlayers st = [] ->
  handleSaveBooking now st = closeDialog (withoutCell e (bookings st)) st.
Proof.
  unfold handleSaveBooking, enteredPlayers. intros -> ->. reflexivity.
Qed.

Lemma handleSaveBooking_entered now st e :
  editingBooking st = Some e ->
  enteredPlayers st <> [] ->
  handleSaveBooking now st =
  closeDialog
    (withoutCell e (bookings st) ++
       [ {| id := Number_toString (Editing.court e) ++ lit "-"
                    ++ Editing.timeSlot e ++ lit "-" ++ Number_toString now;
            court := Editing.court e;
            timeSlot := Editing.timeSlot e;
            players := enteredPlayers st;
            type := Editing.type e;
            date := selectedDate st |} ]) st.
Proof.
  unfold handleSaveBooking, enteredPlayers. intros -> Hne.
  destruct (filter (fun p => truthy (trim p)) (playerInputs st)) as [|p ps];
    [congruence | reflexivity].
Qed.

(** C10: a completed handleSaveBooking or handleDeleteBooking keeps at
    most one booking per (court, timeSlot).  Both first drop whatever is
    stored for the edited cell; saving then appends one booking for that
    cell holding the non-blank inputs, unless every input is blank, in
    which case nothing is appended and the cell is left empty. *)
Theorem C10_one_booking_per_cell (now : Z) (st : State) :
  atMostOnePerCell (bookings st) ->
  atMostOnePerCell (bookings (handleSaveBooking now st)) /\
  atMostOnePerCell (bookings (handleDeleteBooking st)) /\
  forall e, editingBooking st = Some e ->
    cellCount (withoutCell e (bookings st))
      (Editing.court e) (Editing.timeSlot e) = 0 /\
    bookings (handleDeleteBooking st) = withoutCell e (bookings st) /\
    (forallb isBlank (playerInputs st) = true ->
     bookings (handleSaveBooking now st) = withoutCell e (bookings st)) /\
    (forallb isBlank (playerInputs st) = false ->
     exists newBooking,
       bookings (handleSaveBooking now st)
       = withoutCell e (bookings st) ++ [newBooking] /\
       court newBooking = Editing.court e /\
       timeSlot newBooking = Editing.timeSlot e /\
       players newBooking = enteredPlayers st /\
       players newBooking <> []).
Proof.
  intros Hinv.
  destruct (editingBooking st) as [e|] eqn:Ee.
  - assert (Hdel : handleDeleteBooking st
                   = closeDialog (withoutCell e (bookings st)) st)
      by (unfold handleDeleteBooking; rewrite Ee; reflexivity).
    destruct (forallb isBlank (playerInputs st)) eqn:Hb.
    + pose proof (proj2 (enteredPlayers_nil st) Hb) as Hnil.
      rewrite (handleSaveBooking_blank _ _ _ Ee Hnil), Hdel. simpl.
      split; [apply withoutCell_atMostOne; exact Hinv|].
      split; [apply withoutCell_atMostOne; exact Hinv|].
      intros e' He'. inversion He'; subst e'.
      split; [apply cellCount_withoutCell_same|].
      split; [reflexivity|]. split; [reflexivity | discriminate].
    + assert (Hne : enteredPlayers st <> []).
      { intros Hnil. apply enteredPlayers_nil in Hnil. congruence. }
      rewrite (handleSaveBooking_entered _ _ _ Ee Hne), Hdel. simpl.
      split; [apply append_atMostOne; [exact Hinv | reflexivity..]|].
      split; [apply withoutCell_atMostOne; exact Hinv|].
      intros e' He'. inversion He'; subst e'.
      split; [apply cellCount_withoutCell_same|].
      split; [reflexivity|]. split; [discriminate|].
      intros _. eexists. split; [reflexivity|].
      simpl. repeat split. exact Hne.
  - unfold handleSaveBooking, handleDeleteBooking. rewrite Ee.
    split; [exact Hinv|]. split; [exact Hinv|]. discriminate.
Qed.

(** C10 on a dialog open on a booked cell: the stored booking of the
    cell is replaced by the new one, the other cell is untouched. *)
Lemma C10_one_booking_per_cell_witness :
  atMostOnePerCell (bookings Examples.editingBookedCell) /\
  atMostOnePerCell
    (bookings (handleSaveBooking 1704412800000 Examples.editingBookedCell)) /\
  atMostOnePerCell (bookings (handleDeleteBooking Examples.editingBookedCell)) /\
  map (fun b => (court b, players b))
    (bookings (handleSaveBooking 1704412800000 Examples.editingBookedCell))
  = [(2, [lit "Dee"; lit "Eve"]); (1, [lit "Ann"; lit "Bob"])].
Proof.
  assert (Hinv : atMostOnePerCell (bookings Examples.editingBookedCell)).
  { intros c t. unfold cellCount, Examples.editingBookedCell.
    cbn [bookings filter court timeSlot Examples.mkBooking].
    destruct ((1 =? c) && str_eqb (lit "5:00-6:00 PM") t) eqn:E1;
      destruct ((2 =? c) && str_eqb (lit "7:00-8:00 PM") t) eqn:E2;
      cbn [List.length]; lia. }
  split; [exact Hinv|].
  destruct (C10_one_booking_per_cell 1704412800000
              Examples.editingBookedCell Hinv) as [Hs [Hd _]].
  split; [exact Hs|]. split; [exact Hd|]. reflexivity.
Defined.

End AppClaims.

(* ================================================================= *)
(** * Player statistics: order, totals and the summary figures *)

Section StatsMore.
Import PlayerStats.

Lemma summarizeFrom_hours_counts n cs : forall found s,
  (forall s0, found = Some s0 ->
     totalHours s0 = singlesMatches s0 + 2 * doublesMatches s0) ->
  summarizeFrom n cs found = Some s ->
  totalHours s = singlesMatches s + 2 * doublesMatches s.
Proof.
  induction cs as [|b cs IH]; intros found s Hf; simpl.
  - intros H. apply Hf. exact H.
  - apply IH. intros s0 H0. inversion H0; subst; clear H0.
    unfold accumulate, matchDuration.
    destruct found as [s1|];
      cbn [totalHours singlesMatches doublesMatches].
    + specialize (Hf s1 eq_refl). destruct (type b); lia.
    + destruct (type b); lia.
Qed.

(** X1: in every record of the output, totalHours is singlesMatches plus
    twice doublesMatches. *)
Theorem stats_hours_from_counts (bs : list Booking) :
  Forall (fun s => totalHours s = singlesMatches s + 2 * doublesMatches s)
         (calculatePlayerStats bs).
Proof.
  apply Forall_forall. intros s Hin.
  destruct (output_inv _ _ Hin) as [s0 [_ [Hsum ->]]].
  change (totalHours s0 = singlesMatches s0 + 2 * doublesMatches s0).
  eapply summarizeFrom_hours_counts; [|exact Hsum]. discriminate.
Qed.

(** The keys of the first pass, in insertion order. *)

Lemma processPlayer_keys_order booking statsMap p :
  JsMap.keys (processPlayer booking statsMap p) =
  if isBlank p then JsMap.keys statsMap else seeName (JsMap.keys statsMap) p.
Proof.
  destruct (isBlank p) eqn:Bp.
  - rewrite (processPlayer_blank _ _ _ Bp). reflexivity.
  - rewrite (processPlayer_nonblank _ _ _ Bp). unfold seeName.
    destruct (includes (JsMap.keys statsMap) p) eqn:E.
    + apply includes_In in E. apply (keys_set_present _ str_eqb_eq). exact E.
    + apply (keys_set_absent _ str_eqb_eq). intros Hin.
      apply includes_In in Hin. congruence.
Qed.

Lemma processPlayers_keys_order booking ps : forall statsMap,
  JsMap.keys (fold_left (processPlayer booking) ps statsMap) =
  fold_left seeName (filter (fun p => negb (isBlank p)) ps)
    (JsMap.keys statsMap).
Proof.
  induction ps as [|p ps IH]; intros m; simpl; [reflexivity|].
  rewrite IH, processPlayer_keys_order.
  destruct (isBlank p); reflexivity.
Qed.

Lemma processBookings_keys_order bs : forall statsMap,
  JsMap.keys (fold_left processBooking bs statsMap) =
  fold_left seeName (nonBlankEntries bs) (JsMap.keys statsMap).
Proof.
  unfold nonBlankEntries.
  induction bs as [|b bs IH]; intros m; simpl; [reflexivity|].
  rewrite IH, filter_app, fold_left_app. unfold processBooking.
  rewrite processPlayers_keys_order. reflexivity.
Qed.

Lemma groupingPass_keys_order bs :
  JsMap.keys (groupingPass bs) = firstSeen (nonBlankEntries bs).
Proof. apply processBookings_keys_order. Qed.

(** The sort keeps the relative order of records with equal keys. *)

Lemma sort_insert_stable v x l :
  filter (fun s => totalMatches s =? v) (sort_insert byTotalMatchesDesc x l)
  = filter (fun s => totalMatches s =? v) (x :: l).
Proof.
  induction l as [|y l IH]; [reflexivity|].
  cbn [sort_insert].
  destruct (byTotalMatchesDesc x y <=? 0) eqn:E; [reflexivity|].
  apply Z.leb_gt in E. unfold byTotalMatchesDesc in E.
  cbn [filter]. rewrite IH. cbn [filter].
  destruct (totalMatches y =? v) eqn:Ey;
    destruct (totalMatches x =? v) eqn:Ex; try reflexivity.
  apply Z.eqb_eq in Ey, Ex. lia.
Qed.

Lemma Array_sort_stable v l :
  filter (fun s => totalMatches s =? v) (Array_sort byTotalMatchesDesc l)
  = filter (fun s => totalMatches s =? v) l.
Proof.
  induction l as [|x l IH]; [reflexivity|].
  cbn [Array_sort]. rewrite sort_insert_stable. cbn [filter].
  rewrite IH. reflexivity.
Qed.

Lemma map_filter_map {A B C} (f : A -> B) (g : B -> C) (h : A -> C)
    (P : B -> bool) (Q : C -> bool) (l : list A) :
  (forall x, In x l -> g (f x) = h x /\ P (f x) = Q (h x)) ->
  map g (filter P (map f l)) = filter Q (map h l).
Proof.
  induction l as [|x l IH]; intros H; [reflexivity|].
  cbn [map filter].
  destruct (H x (or_introl eq_refl)) as [Hg HP].
  rewrite HP, <- Hg, <- IH by (intros y Hy; apply H; right; exact Hy).
  destruct (Q (g (f x))); reflexivity.
Qed.

Lemma groupingPass_entry_total bs k s0 :
  In (k, s0) (groupingPass bs) -> totalMatches s0 = entryCount k bs.
Proof.
  intros Hin. destruct (groupingPass_entry _ _ _ Hin) as [_ [_ Hsum]].
  change (totalMatches s0) with (totalOf (Some s0)).
  rewrite <- Hsum, summarizeFrom_total, contributions_length. reflexivity.
Qed.

(** X2: the players with a given number of matches appear in the output
    in the order in which their names first occur in the scan of the
    bookings: ties keep the order of discovery. *)
Theorem stats_ties_in_first_seen_order (bs : list Booking) (v : Z) :
  map name (filter (fun s => totalMatches s =? v) (calculatePlayerStats bs))
  = filter (fun n => entryCount n bs =? v) (firstSeen (nonBlankEntries bs)).
Proof.
  unfold calculatePlayerStats. rewrite Array_sort_stable.
  rewrite <- groupingPass_keys_order.
  unfold JsMap.values, JsMap.keys, favoritePass. rewrite map_map.
  apply map_filter_map. intros [k s0] Hin.
  pose proof (groupingPass_entry_total _ _ _ Hin) as Ht.
  destruct (groupingPass_entry _ _ _ Hin) as [_ [Hn _]].
  cbn [setFavorite snd fst name totalMatches].
  rewrite Hn, Ht. split; reflexivity.
Qed.

(** Totals over the statistics map. *)

Lemma sumZ_set_values (f : PlayerStat -> Z) (m : statsMap_t) k v :
  sumZ (map f (JsMap.values (JsMap.set str_eqb m k v)))
  = sumZ (map f (JsMap.values m))
    - match JsMap.get str_eqb m k with Some s => f s | None => 0 end
    + f v.
Proof.
  unfold JsMap.values.
  induction m as [|[k' v'] m IH];
    cbn [JsMap.set JsMap.get map sumZ fold_right snd].
  - lia.
  - destruct (str_eqb k' k); cbn [map snd fold_right].
    + lia.
    + unfold sumZ in IH. rewrite IH. lia.
Qed.

Lemma processPlayer_sums booking statsMap p :
  sumZ (map totalMatches (JsMap.values (processPlayer booking statsMap p)))
  = sumZ (map totalMatches (JsMap.values statsMap))
    + (if isBlank p then 0 else 1) /\
  sumZ (map totalHours (JsMap.values (processPlayer booking statsMap p)))
  = sumZ (map totalHours (JsMap.values statsMap))
    + (if isBlank p then 0 else matchDuration booking).
Proof.
  destruct (isBlank p) eqn:Bp.
  - rewrite (processPlayer_blank _ _ _ Bp). split; lia.
  - rewrite (processPlayer_nonblank _ _ _ Bp), !sumZ_set_values.
    unfold accumulate.
    destruct (JsMap.get str_eqb statsMap p);
      cbn [totalMatches totalHours]; split; lia.
Qed.

Lemma processBooking_sums statsMap b :
  sumZ (map totalMatches (JsMap.values (processBooking statsMap b)))
  = sumZ (map totalMatches (JsMap.values statsMap))
    + Z.of_nat (List.length (filter (fun p => negb (isBlank p)) (players b)))
  /\
  sumZ (map totalHours (JsMap.values (processBooking statsMap b)))
  = sumZ (map totalHours (JsMap.values statsMap))
    + matchDuration b
      * Z.of_nat (List.length
                    (filter (fun p => negb (isBlank p)) (players b))).
Proof.
  unfold processBooking. generalize (players b) as ps. intros ps.
  revert statsMap. induction ps as [|p ps IH]; intros m.
  - cbn [fold_left filter List.length]. split; lia.
  - cbn [fold_left filter].
    destruct (IH (processPlayer b m p)) as [H1 H2].
    destruct (processPlayer_sums b m p) as [P1 P2].
    rewrite H1, H2, P1, P2.
    destruct (isBlank p); cbn [negb List.length];
      rewrite ?Nat2Z.inj_succ; split; lia.
Qed.

Lemma groupingPass_sums bs :
  sumZ (map totalMatches (JsMap.values (groupingPass bs)))
  = Z.of_nat (List.length (nonBlankEntries bs)) /\
  sumZ (map totalHours (JsMap.values (groupingPass bs))) = playedHours bs.
Proof.
  unfold groupingPass, nonBlankEntries, playedHours.
  assert (H : forall m,
    sumZ (map totalMatches (JsMap.values (fold_left processBooking bs m)))
    = sumZ (map totalMatches (JsMap.values m))
      + Z.of_nat (List.length
                    (filter (fun p => negb (isBlank p)) (flat_map players bs)))
    /\
    sumZ (map totalHours (JsMap.values (fold_left processBooking bs m)))
    = sumZ (map totalHours (JsMap.values m))
      + sumZ (map (fun b =>
                     matchDuration b
                     * Z.of_nat (List.length
                          (filter (fun p => negb (isBlank p)) (players b))))
                  bs)).
  { induction bs as [|b bs IH]; intros m.
    - cbn [fold_left flat_map filter List.length map sumZ fold_right].
      split; lia.
    - cbn [fold_left flat_map map].
      destruct (IH (processBooking m b)) as [H1 H2].
      destruct (processBooking_sums m b) as [P1 P2].
      rewrite H1, H2, P1, P2, filter_app, length_app, Nat2Z.inj_add.
      unfold sumZ. cbn [fold_right]. split; lia. }
  destruct (H []) as [H1 H2]. rewrite H1, H2.
  cbn [JsMap.values map sumZ fold_right]. split; lia.
Qed.

Lemma sumZ_perm l1 l2 : Permutation l1 l2 -> sumZ l1 = sumZ l2.
Proof.
  induction 1 as [|x l l' _ IH|x y l|l l' l'' _ IH1 _ IH2];
    cbn [sumZ fold_right] in *; unfold sumZ in *; lia.
Qed.

Lemma fold_left_sum {A} (f : A -> Z) (l : list A) : forall acc,
  fold_left (fun sum p => sum + f p) l acc = acc + sumZ (map f l).
Proof.
  induction l as [|x l IH]; intros acc; cbn [fold_left map sumZ fold_right].
  - lia.
  - rewrite IH. unfold sumZ. lia.
Qed.

Lemma output_sums (f : PlayerStat -> Z) bs :
  (forall e, f (snd (setFavorite bs e)) = f (snd e)) ->
  sumZ (map f (calculatePlayerStats bs))
  = sumZ (map f (JsMap.values (groupingPass bs))).
Proof.
  intros Hf. unfold calculatePlayerStats.
  rewrite (sumZ_perm _ _ (Permutation_map f (Array_sort_perm _ _))).
  unfold JsMap.values, favoritePass. rewrite !map_map.
  f_equal. apply map_ext. intros e. apply Hf.
Qed.

Lemma output_length bs :
  List.length (calculatePlayerStats bs)
  = List.length (firstSeen (nonBlankEntries bs)).
Proof.
  rewrite <- groupingPass_keys_order.
  rewrite <- (Permutation_length (output_names_perm bs)).
  rewrite length_map. reflexivity.
Qed.

(** X3: the summary figures count the input: total players is the number
    of distinct non-blank names, total matches the number of non-blank
    player entries, total hours each booking's duration once per
    non-blank entry. *)
Theorem total_stats_count_the_input
    (toFixed1 : Z -> Z -> jsstring) (bs : list Booking) :
  PlayerStatsSummary.totalPlayers
    (PlayerStatsSummary.getTotalStats toFixed1 (calculatePlayerStats bs))
  = Z.of_nat (List.length (firstSeen (nonBlankEntries bs))) /\
  PlayerStatsSummary.totalMatches
    (PlayerStatsSummary.getTotalStats toFixed1 (calculatePlayerStats bs))
  = Z.of_nat (List.length (nonBlankEntries bs)) /\
  PlayerStatsSummary.totalHours
    (PlayerStatsSummary.getTotalStats toFixed1 (calculatePlayerStats bs))
  = playedHours bs.
Proof.
  destruct (groupingPass_sums bs) as [H1 H2].
  unfold PlayerStatsSummary.getTotalStats.
  cbn [PlayerStatsSummary.totalPlayers PlayerStatsSummary.totalMatches
       PlayerStatsSummary.totalHours].
  rewrite !fold_left_sum, output_length.
  rewrite (output_sums totalMatches), (output_sums totalHours), H1, H2
    by (intros [k s0]; reflexivity).
  repeat split; lia.
Qed.

Lemma firstSeen_nil l : firstSeen l = [] <-> l = [].
Proof.
  split; [|intros ->; reflexivity].
  destruct l as [|x l]; [reflexivity|]. intros H. exfalso.
  unfold firstSeen in H. cbn [fold_left] in H.
  assert (Hgrow : forall l acc, acc <> [] -> fold_left seeName l acc <> []).
  { clear. induction l as [|y l IH]; intros acc Hacc; [exact Hacc|].
    cbn [fold_left]. apply IH. unfold seeName.
    destruct (includes acc y); [exact Hacc|].
    destruct acc; discriminate. }
  apply (Hgrow l (seeName [] x)); [discriminate | exact H].
Qed.

(** X4: the average is the constant "0" exactly when no booking has a
    non-blank player; otherwise it is the rendering of entries over
    distinct names, and the divisor is positive. *)
Theorem average_never_divides_by_zero
    (toFixed1 : Z -> Z -> jsstring) (bs : list Booking) :
  PlayerStatsSummary.avgMatchesPerPlayer
    (PlayerStatsSummary.getTotalStats toFixed1 (calculatePlayerStats bs))
  = (if 0 <? Z.of_nat (List.length (nonBlankEntries bs)) then
       toFixed1 (Z.of_nat (List.length (nonBlankEntries bs)))
                (Z.of_nat (List.length (firstSeen (nonBlankEntries bs))))
     else lit "0") /\
  (0 < Z.of_nat (List.length (firstSeen (nonBlankEntries bs))) <->
   0 < Z.of_nat (List.length (nonBlankEntries bs))) /\
  (nonBlankEntries bs = [] <-> calculatePlayerStats bs = []).
Proof.
  assert (Hpos : 0 < Z.of_nat (List.length (firstSeen (nonBlankEntries bs)))
                 <-> 0 < Z.of_nat (List.length (nonBlankEntries bs))).
  { pose proof (firstSeen_nil (nonBlankEntries bs)) as Hn.
    destruct (nonBlankEntries bs) as [|x l] eqn:E.
    - cbn. lia.
    - destruct (firstSeen (x :: l)) as [|y l'] eqn:F.
      + destruct Hn as [Hn _]. specialize (Hn eq_refl). discriminate.
      + cbn [List.length]. lia. }
  split; [|split; [exact Hpos|]].
  - destruct (groupingPass_sums bs) as [H1 _].
    unfold PlayerStatsSummary.getTotalStats.
    cbn [PlayerStatsSummary.avgMatchesPerPlayer].
    rewrite fold_left_sum, output_length.
    rewrite (output_sums totalMatches), H1 by (intros [k s0]; reflexivity).
    destruct (0 <? Z.of_nat (List.length (firstSeen (nonBlankEntries bs))))
      eqn:E1;
      destruct (0 <? Z.of_nat (List.length (nonBlankEntries bs))) eqn:E2;
      rewrite ?Z.ltb_lt, ?Z.ltb_ge in *; try reflexivity; lia.
  - rewrite <- firstSeen_nil.
    pose proof (output_length bs) as HL.
    split; intros H.
    + rewrite H in HL. destruct (calculatePlayerStats bs);
        [reflexivity | discriminate].
    + rewrite H in HL. destruct (firstSeen (nonBlankEntries bs));
        [reflexivity | discriminate].
Qed.

Lemma StronglySorted_app_cross {A} (R : A -> A -> Prop) l1 l2 :
  StronglySorted R (l1 ++ l2) ->
  Forall (fun p => Forall (fun q => R p q) l2) l1.
Proof.
  induction l1 as [|x l1 IH]; cbn [app]; intros H; [constructor|].
  inversion H as [|? ? Hs Hall]; subst.
  constructor; [|apply IH; exact Hs].
  apply Forall_app in Hall. tauto.
Qed.

(** X5: the top players are the first five records of the output (all of
    them when there are fewer), and no player left out has more matches
    than a player shown. *)
Theorem top_players_have_most_matches (bs : list Booking) :
  PlayerStatsSummary.getTopPlayers (calculatePlayerStats bs)
    ++ skipn 5 (calculatePlayerStats bs) = calculatePlayerStats bs /\
  List.length (PlayerStatsSummary.getTopPlayers (calculatePlayerStats bs))
  = Nat.min 5 (List.length (calculatePlayerStats bs)) /\
  Forall (fun p =>
            Forall (fun q => totalMatches p >= totalMatches q)
                   (skipn 5 (calculatePlayerStats bs)))
         (PlayerStatsSummary.getTopPlayers (calculatePlayerStats bs)).
Proof.
  unfold PlayerStatsSummary.getTopPlayers.
  split; [apply firstn_skipn|]. split; [apply length_firstn|].
  apply StronglySorted_app_cross. rewrite firstn_skipn.
  apply Array_sort_sortedDesc.
Qed.

End StatsMore.

(* ================================================================= *)
(** * Email notifications: checks, effects and the address fields *)

Section EmailMore.
Import EmailNotifications.

Lemma dispatches_true st :
  dispatches st = true <->
  validateEmails st <> [] /\
  truthy (trim (subject (emailTemplate st))) = true /\
  truthy (trim (message (emailTemplate st))) = true.
Proof.
  unfold dispatches, isBlank.
  rewrite !andb_true_iff, !negb_true_iff, !negb_false_iff, Z.eqb_neq.
  destruct (validateEmails st) as [|e es]; cbn [List.length].
  - split; [intros [[H _] _]; lia | intros [H _]; congruence].
  - split; [intros [[_ H1] H2] | intros [_ [H1 H2]]];
      repeat split; try assumption; try discriminate; lia.
Qed.

Lemma sendNotifications_blank_template onEmailSent net st :
  validateEmails st <> [] ->
  isBlank (subject (emailTemplate st)) = true \/
  isBlank (message (emailTemplate st)) = true ->
  sendNotifications onEmailSent net st =
  (setSendStatus error
     (setErrorMessage (lit "Please fill in both subject and message.") st),
   []).
Proof.
  intros Hne Hb. unfold sendNotifications.
  destruct (validateEmails st) as [|e es]; [congruence|].
  change (Z.of_nat (List.length (e :: es)) =? 0) with false. cbv iota.
  unfold isBlank in Hb.
  destruct Hb as [Hb|Hb]; rewrite Hb; [|rewrite orb_true_r]; reflexivity.
Qed.

(** X6: with at least one valid recipient but a subject or a message that
    is blank after trimming, the call is rejected with the error "Please
    fill in both subject and message." and issues no send. *)
Theorem blank_template_rejected
    (onEmailSent : option Completion)
    (net : nat -> Mail.options -> CallOutcome) (st : State) :
  validateEmails st <> [] ->
  isBlank (subject (emailTemplate st)) = true \/
  isBlank (message (emailTemplate st)) = true ->
  sendStatus (fst (sendNotifications onEmailSent net st)) = error /\
  errorMessage (fst (sendNotifications onEmailSent net st))
  = lit "Please fill in both subject and message." /\
  snd (sendNotifications onEmailSent net st) = [].
Proof.
  intros Hne Hb.
  rewrite (sendNotifications_blank_template _ _ _ Hne Hb).
  repeat split.
Qed.

Lemma blank_template_rejected_witness :
  validateEmails Examples.blankSubject <> [] /\
  isBlank (subject (emailTemplate Examples.blankSubject)) = true /\
  sendStatus (fst (sendNotifications (Some normal) Examples.secondFails
                     Examples.blankSubject)) = error /\
  snd (sendNotifications (Some normal) Examples.secondFails
         Examples.blankSubject)
  = [].
Proof.
  assert (Hne : validateEmails Examples.blankSubject <> [])
    by (vm_compute; discriminate).
  split; [exact Hne|]. split; [reflexivity|].
  destruct (blank_template_rejected (Some normal) Examples.secondFails
              Examples.blankSubject Hne (or_introl eq_refl))
    as [Hs [_ Hl]].
  split; [exact Hs | exact Hl].
Defined.

Lemma sendNotifications_not_dispatched onEmailSent net st :
  dispatches st = false ->
  snd (sendNotifications onEmailSent net st) = [] /\
  exists msg,
    fst (sendNotifications onEmailSent net st)
    = setSendStatus error (setErrorMessage msg st).
Proof.
  intros Hd. destruct (validateEmails st) as [|e es] eqn:Ev.
  - rewrite sendNotifications_none_valid by exact Ev.
    split; [reflexivity | eexists; reflexivity].
  - assert (Hne : validateEmails st <> []) by (rewrite Ev; discriminate).
    assert (Hb : isBlank (subject (emailTemplate st)) = true \/
                 isBlank (message (emailTemplate st)) = true).
    { unfold dispatches in Hd. rewrite Ev in Hd.
      change (Z.of_nat (List.length (e :: es)) =? 0) with false in Hd.
      cbn [negb andb] in Hd.
      destruct (isBlank (subject (emailTemplate st))); [left; reflexivity|].
      destruct (isBlank (message (emailTemplate st))); [right; reflexivity|].
      discriminate. }
    rewrite (sendNotifications_blank_template _ _ _ Hne Hb).
    split; [reflexivity | eexists; reflexivity].
Qed.

Lemma In_map_NotifyEmail_other reqs x :
  In x (map NotifyEmail reqs) ->
  match x with NotifyEmail _ => True | _ => False end.
Proof.
  intros H. apply in_map_iff in H. destruct H as [o [<- _]]. exact I.
Qed.

(** The effects of a run that are not send calls. *)
Lemma sendNotifications_other_effects onEmailSent net st :
  exists made,
    snd (sendNotifications onEmailSent net st)
    = map NotifyEmail made
      ++ (if dispatches st && allCallsReturn net st
             && (failures (batchResults net st) =? 0)
          then (if hasCallback onEmailSent then [OnEmailSent] else [])
               ++ (if callbackThrows onEmailSent then []
                   else [SetTimeout 2000 closeAfterSuccess])
          else []).
Proof.
  destruct (dispatches st) eqn:Hd.
  - destruct (proj1 (dispatches_true st) Hd) as [Hne [Hs Hm]].
    rewrite (sendNotifications_dispatch _ _ _ Hne Hs Hm). cbv zeta.
    exists (fst (callFrom net 0 (requestsOf st))). cbn [andb].
    destruct (allCallsReturn net st); cbn [snd andb];
      [|rewrite app_nil_r; reflexivity].
    destruct (failures (batchResults net st) =? 0); cbn [snd];
      [|rewrite app_nil_r; reflexivity].
    destruct onEmailSent as [[|]|]; reflexivity.
  - destruct (sendNotifications_not_dispatched onEmailSent net st Hd)
      as [Hl _].
    exists []. rewrite Hl. reflexivity.
Qed.

(** X7: the [onEmailSent] callback is called, when the prop was passed,
    exactly if the batch was dispatched, every send call returned and no
    send was rejected; the delayed close of the dialog (2000 ms, with the
    callback that closes it) is scheduled exactly then too, unless the
    callback threw.  A rejected call, a send call that throws or a batch
    with a failure does neither. *)
Theorem callback_only_after_full_success
    (onEmailSent : option Completion)
    (net : nat -> Mail.options -> CallOutcome) (st : State)
    (ms : Z) (callback : State -> State) :
  (In OnEmailSent (snd (sendNotifications onEmailSent net st)) <->
   hasCallback onEmailSent = true /\ dispatches st = true /\
   allCallsReturn net st = true /\
   failures (batchResults net st) = 0) /\
  (In (SetTimeout ms callback)
      (snd (sendNotifications onEmailSent net st)) <->
   ms = 2000 /\ callback = closeAfterSuccess /\ dispatches st = true /\
   allCallsReturn net st = true /\
   failures (batchResults net st) = 0 /\
   callbackThrows onEmailSent = false).
Proof.
  destruct (sendNotifications_other_effects onEmailSent net st)
    as [made ->].
  rewrite !in_app_iff.
  destruct (dispatches st); cbn [andb];
    [|split; split;
      [intros [H|[]]; apply In_map_NotifyEmail_other in H; destruct H
      | intros [_ [H _]]; discriminate
      | intros [H|[]]; apply In_map_NotifyEmail_other in H; destruct H
      | intros [_ [_ [H _]]]; discriminate]].
  destruct (allCallsReturn net st); cbn [andb];
    [|split; split;
      [intros [H|[]]; apply In_map_NotifyEmail_other in H; destruct H
      | intros [_ [_ [H _]]]; discriminate
      | intros [H|[]]; apply In_map_NotifyEmail_other in H; destruct H
      | intros [_ [_ [_ [H _]]]]; discriminate]].
  destruct (failures (batchResults net st) =? 0) eqn:EF.
  - apply Z.eqb_eq in EF. rewrite EF.
    destruct onEmailSent as [[|]|];
      cbn [hasCallback callbackThrows app In]; split; split.
    + intros _. repeat split.
    + intros _. right. left. reflexivity.
    + intros [H|[H|[H|[]]]];
        [apply In_map_NotifyEmail_other in H; destruct H | discriminate|].
      inversion H; subst. repeat split.
    + intros [-> [-> _]]. right. right. left. reflexivity.
    + intros _. repeat split.
    + intros _. right. left. reflexivity.
    + intros [H|[H|[]]];
        [apply In_map_NotifyEmail_other in H; destruct H | discriminate].
    + intros [_ [_ [_ [_ [_ H]]]]]. discriminate.
    + intros [H|[H|[]]];
        [apply In_map_NotifyEmail_other in H; destruct H | discriminate].
    + intros [H _]. discriminate.
    + intros [H|[H|[]]];
        [apply In_map_NotifyEmail_other in H; destruct H|].
      inversion H; subst. repeat split.
    + intros [-> [-> _]]. right. left. reflexivity.
  - apply Z.eqb_neq in EF. split; split.
    + intros [H|[]]. apply In_map_NotifyEmail_other in H. destruct H.
    + intros [_ [_ [_ H]]]. contradiction.
    + intros [H|[]]. apply In_map_NotifyEmail_other in H. destruct H.
    + intros [_ [_ [_ [_ [H _]]]]]. contradiction.
Qed.

Lemma afterTimers_sends st made :
  afterTimers (st, map NotifyEmail made) = st.
Proof.
  unfold afterTimers. cbn [fst snd].
  induction made as [|o made IH]; [reflexivity | exact IH].
Qed.

Lemma afterTimers_app st made rest :
  afterTimers (st, map NotifyEmail made ++ rest) = afterTimers (st, rest).
Proof.
  unfold afterTimers. cbn [fst snd]. rewrite fold_left_app.
  f_equal. apply (afterTimers_sends st made).
Qed.

(** X8: a call never alters the address fields or the template, neither
    when it settles nor when its timer fires.  When the call settles the
    open flag is as before, the status is success or error, and the
    sending flag is lowered if the batch was dispatched and otherwise
    untouched.  Only a call that ran to its end without an error has a
    timer: once it has fired the dialog is closed and the status is idle
    again; after any other call the state stays as the call left it. *)
Theorem send_keeps_the_inputs
    (onEmailSent : option Completion)
    (net : nat -> Mail.options -> CallOutcome) (st : State) :
  emailAddresses (fst (sendNotifications onEmailSent net st))
  = emailAddresses st /\
  emailTemplate (fst (sendNotifications onEmailSent net st))
  = emailTemplate st /\
  isOpen (fst (sendNotifications onEmailSent net st)) = isOpen st /\
  (sendStatus (fst (sendNotifications onEmailSent net st)) = success \/
   sendStatus (fst (sendNotifications onEmailSent net st)) = error) /\
  isSending (fst (sendNotifications onEmailSent net st))
  = (if dispatches st then false else isSending st) /\
  emailAddresses (afterTimers (sendNotifications onEmailSent net st))
  = emailAddresses st /\
  emailTemplate (afterTimers (sendNotifications onEmailSent net st))
  = emailTemplate st /\
  (if fullSuccess onEmailSent net st then
     isOpen (afterTimers (sendNotifications onEmailSent net st)) = false /\
     sendStatus (afterTimers (sendNotifications onEmailSent net st)) = idle /\
     isSending (afterTimers (sendNotifications onEmailSent net st)) = false /\
     errorMessage (afterTimers (sendNotifications onEmailSent net st)) = []
   else
     afterTimers (sendNotifications onEmailSent net st)
     = fst (sendNotifications onEmailSent net st)).
Proof.
  unfold fullSuccess. destruct (dispatches st) eqn:Hd; cbn [andb].
  - destruct (proj1 (dispatches_true st) Hd) as [Hne [Hs Hm]].
    rewrite (sendNotifications_dispatch _ _ _ Hne Hs Hm). cbv zeta.
    destruct (allCallsReturn net st); cbn [andb].
    + destruct (failures (batchResults net st) =? 0); cbn [andb].
      * destruct onEmailSent as [[|]|]; cbn [callbackThrows negb fst];
          rewrite ?afterTimers_app; repeat split; auto.
      * cbn [fst]. rewrite afterTimers_sends. repeat split; auto.
    + cbn [fst]. rewrite afterTimers_sends. repeat split; auto.
  - destruct (sendNotifications_not_dispatched onEmailSent net st Hd)
      as [Hl [msg Hf]].
    assert (Hr : sendNotifications onEmailSent net st
                 = (setSendStatus error (setErrorMessage msg st), [])).
    { rewrite <- Hl, <- Hf. apply surjective_pairing. }
    rewrite Hr. repeat split; auto.
Qed.

(** X9: every dispatched request carries the template's subject, the
    message as text, and as html the message with each line feed replaced
    by a break element, so the html holds no line feed. *)
Theorem dispatched_mail_content
    (onEmailSent : option Completion)
    (net : nat -> Mail.options -> CallOutcome) (st : State) :
  Forall (fun o =>
            Mail.subject o = subject (emailTemplate st) /\
            Mail.text o = message (emailTemplate st) /\
            Mail.html o = replaceNewlines (message (emailTemplate st)) /\
            existsb (N.eqb 10) (Mail.html o) = false)
         (sends (snd (sendNotifications onEmailSent net st))) /\
  (existsb (N.eqb 10) (message (emailTemplate st)) = false <->
   replaceNewlines (message (emailTemplate st)) = message (emailTemplate st)).
Proof.
  assert (Hno : forall s, existsb (N.eqb 10) (replaceNewlines s) = false).
  { induction s as [|c s IH]; [reflexivity|].
    unfold replaceNewlines in *. cbn [flat_map].
    rewrite existsb_app, IH, orb_false_r.
    destruct (N.eqb c 10) eqn:E; [reflexivity|].
    cbn [existsb]. rewrite N.eqb_sym, E. reflexivity. }
  split.
  - apply Forall_forall. intros o Ho.
    apply sends_incl_requests in Ho. unfold requestsOf in Ho.
    apply in_map_iff in Ho. destruct Ho as [email [<- _]].
    cbn [mailFor Mail.subject Mail.text Mail.html].
    repeat split. apply Hno.
  - split.
    + generalize (message (emailTemplate st)) as s.
      induction s as [|c s IH]; [reflexivity|].
      cbn [existsb]. rewrite orb_false_iff. intros [Hc Hs].
      unfold replaceNewlines in *. cbn [flat_map].
      rewrite N.eqb_sym, Hc, IH by exact Hs. reflexivity.
    + intros <-. apply Hno.
Qed.



(** X23: when every send succeeds but the onEmailSent callback throws,
    the call still ends in the error status with the generic message,
    although all emails were sent; the callback was called and no close
    of the dialog is scheduled. *)
Theorem throwing_callback_reports_generic_error
    (net : nat -> Mail.options -> CallOutcome) (st : State) :
  dispatches st = true ->
  allCallsReturn net st = true ->
  failures (batchResults net st) = 0 ->
  sendStatus (fst (sendNotifications (Some abrupt) net st)) = error /\
  errorMessage (fst (sendNotifications (Some abrupt) net st))
  = lit "Failed to send email notifications. Please try again." /\
  isSending (fst (sendNotifications (Some abrupt) net st)) = false /\
  snd (sendNotifications (Some abrupt) net st)
  = map NotifyEmail
      (map (mailFor (emailTemplate st)) (validateEmails st))
    ++ [OnEmailSent].
Proof.
  intros Hd Hret HF.
  destruct (proj1 (dispatches_true st) Hd) as [Hne [Hs Hm]].
  rewrite (sendNotifications_dispatch _ _ _ Hne Hs Hm). cbv zeta.
  rewrite Hret, HF. cbn [Z.eqb fst snd].
  repeat split.
  unfold allCallsReturn in Hret.
  destruct (snd (callFrom net 0 (requestsOf st))) as [ps|] eqn:E;
    [|discriminate].
  destruct (callFrom_returned _ _ _ _ E) as [-> _]. reflexivity.
Qed.

Lemma throwing_callback_reports_generic_error_witness :
  dispatches Examples.threeRecipients = true /\
  allCallsReturn Examples.allDelivered Examples.threeRecipients = true /\
  failures (batchResults Examples.allDelivered Examples.threeRecipients)
  = 0 /\
  sendStatus (fst (sendNotifications (Some abrupt) Examples.allDelivered
                     Examples.threeRecipients)) = error /\
  sendStatus (fst (sendNotifications (Some normal) Examples.allDelivered
                     Examples.threeRecipients)) = success.
Proof.
  split; [reflexivity|]. split; [reflexivity|]. split; [reflexivity|].
  split; [|reflexivity].
  exact (proj1 (throwing_callback_reports_generic_error
                  Examples.allDelivered Examples.threeRecipients
                  eq_refl eq_refl eq_refl)).
Defined.

Lemma emailShape_one_at s :
  emailShape s ->
  countAt s = 1 /\ existsb isWhiteSpace s = false /\
  (5 <= List.length s)%nat.
Proof.
  intros [l [d [t [-> [Nl [Nd [Nt Hall]]]]]]].
  apply Forall_app in Hall. destruct Hall as [Fl Hall].
  apply Forall_app in Hall. destruct Hall as [Fd Ft].
  assert (Hc : forall u, Forall (fun c => notSpaceAt c = true) u ->
                         filter (N.eqb 64) u = [] /\
                         existsb isWhiteSpace u = false).
  { induction 1 as [|c u Hcu _ [IH1 IH2]]; [split; reflexivity|].
    unfold notSpaceAt in Hcu. apply andb_true_iff in Hcu.
    destruct Hcu as [Hw Ha]. apply negb_true_iff in Hw, Ha.
    cbn [filter existsb]. rewrite N.eqb_sym, Ha, Hw, IH1, IH2.
    split; reflexivity. }
  destruct (Hc _ Fl) as [Al Wl], (Hc _ Fd) as [Ad Wd], (Hc _ Ft) as [At Wt].
  unfold countAt.
  rewrite !filter_app, !existsb_app, !length_app, Al, Ad, At, Wl, Wd, Wt.
  destruct l; [congruence|]. destruct d; [congruence|].
  destruct t; [congruence|].
  cbn. repeat split; lia.
Qed.

(** X10: every address kept by validateEmails, once trimmed, holds
    exactly one '@', no white space, and at least five characters. *)
Theorem accepted_addresses_have_one_at (st : State) :
  Forall (fun email =>
            countAt (trim email) = 1 /\
            existsb isWhiteSpace (trim email) = false /\
            (5 <= List.length (trim email))%nat)
         (validateEmails st).
Proof.
  apply Forall_forall. intros email Hin.
  apply validateEmails_spec in Hin. destruct Hin as [_ Hs].
  apply emailShape_one_at. exact Hs.
Qed.

End EmailMore.

Section EmailFieldFacts.
Import EmailNotifications EmailFields.

Lemma dropIndexFrom_past arr : forall from index,
  (index < from)%nat -> dropIndexFrom from index arr = arr.
Proof.
  induction arr as [|x r IH]; intros from index H; [reflexivity|].
  cbn [dropIndexFrom].
  destruct (Nat.eqb_spec from index) as [E|_]; [lia|].
  rewrite IH by lia. reflexivity.
Qed.

(** The index filter drops exactly the element at [index]. *)
Lemma dropIndexFrom_spec arr : forall from index,
  (from <= index)%nat ->
  dropIndexFrom from index arr
  = firstn (index - from) arr ++ skipn (S (index - from)) arr.
Proof.
  induction arr as [|x r IH]; intros from index H.
  - rewrite firstn_nil, skipn_nil. reflexivity.
  - cbn [dropIndexFrom]. destruct (Nat.eqb_spec from index) as [E|E].
    + subst. rewrite Nat.sub_diag, dropIndexFrom_past by lia. reflexivity.
    + rewrite IH by lia.
      replace (index - from)%nat with (S (index - S from)) by lia.
      reflexivity.
Qed.

Lemma setEmailAddresses_same st :
  setEmailAddresses (emailAddresses st) st = st.
Proof. destruct st; reflexivity. Qed.

(** X11: the dialog never loses its last address field: from a non-empty
    list of fields, adding, removing at any index and updating all leave
    a non-empty list. *)
Theorem address_fields_never_empty
    (st : State) (index : nat) (value : jsstring) :
  emailAddresses st <> [] ->
  emailAddresses (addEmailField st) <> [] /\
  emailAddresses (removeEmailField index st) <> [] /\
  match updateEmailAddress index value st with
  | Some st' => emailAddresses st' <> []
  | None => True
  end.
Proof.
  intros Hne. split; [|split].
  - unfold addEmailField. cbn [setEmailAddresses emailAddresses].
    destruct (emailAddresses st); discriminate.
  - unfold removeEmailField.
    destruct (1 <? List.length (emailAddresses st))%nat eqn:E;
      [|exact Hne].
    apply Nat.ltb_lt in E. cbn [setEmailAddresses emailAddresses].
    rewrite dropIndexFrom_spec, Nat.sub_0_r by lia.
    intros H. apply (f_equal (@List.length jsstring)) in H.
    rewrite length_app, length_firstn, length_skipn in H.
    cbn [List.length] in H. lia.
  - unfold updateEmailAddress.
    destruct (index <=? List.length (emailAddresses st))%nat; [|exact I].
    cbn [setEmailAddresses emailAddresses].
    destruct (firstn index (emailAddresses st)); discriminate.
Qed.

Lemma address_fields_never_empty_witness :
  emailAddresses Examples.noValidRecipient <> [] /\
  emailAddresses (removeEmailField 0
                    (removeEmailField 0
                       (removeEmailField 0 Examples.noValidRecipient)))
  = [lit "a b@c.d"] /\
  emailAddresses (removeEmailField 1 Examples.noValidRecipient) <> [].
Proof.
  assert (Hne : emailAddresses Examples.noValidRecipient <> [])
    by discriminate.
  split; [exact Hne|]. split; [reflexivity|].
  exact (proj1 (proj2 (address_fields_never_empty
                         Examples.noValidRecipient 1 [] Hne))).
Defined.

(** X12: with more than one field, removing at an index inside the list
    drops exactly that field and keeps the others in order; an index
    outside the list removes nothing; a single field is never removed. *)
Theorem remove_field_drops_that_field (st : State) (index : nat) :
  emailAddresses (removeEmailField index st)
  = (if (1 <? List.length (emailAddresses st))%nat
        && (index <? List.length (emailAddresses st))%nat
     then firstn index (emailAddresses st)
            ++ skipn (S index) (emailAddresses st)
     else emailAddresses st) /\
  List.length (emailAddresses (removeEmailField index st))
  = (if (1 <? List.length (emailAddresses st))%nat
        && (index <? List.length (emailAddresses st))%nat
     then List.length (emailAddresses st) - 1
     else List.length (emailAddresses st))%nat.
Proof.
  assert (H : emailAddresses (removeEmailField index st)
    = (if (1 <? List.length (emailAddresses st))%nat
          && (index <? List.length (emailAddresses st))%nat
       then firstn index (emailAddresses st)
              ++ skipn (S index) (emailAddresses st)
       else emailAddresses st)).
  { unfold removeEmailField.
    destruct (1 <? List.length (emailAddresses st))%nat eqn:E1;
      cbn [andb]; [|reflexivity].
    cbn [setEmailAddresses emailAddresses].
    rewrite dropIndexFrom_spec, Nat.sub_0_r by lia.
    destruct (index <? List.length (emailAddresses st))%nat eqn:E2;
      [reflexivity|].
    apply Nat.ltb_ge in E2.
    rewrite firstn_all2, skipn_all2, app_nil_r by lia. reflexivity. }
  split; [exact H|]. rewrite H.
  destruct (1 <? List.length (emailAddresses st))%nat eqn:E1;
    cbn [andb]; [|reflexivity].
  destruct (index <? List.length (emailAddresses st))%nat eqn:E2;
    [|reflexivity].
  apply Nat.ltb_lt in E1, E2.
  rewrite length_app, length_firstn, length_skipn. lia.
Qed.

(** X13: adding a field and then removing the field just added gives
    back the state, whenever there was a field to begin with. *)
Theorem remove_undoes_add (st : State) :
  emailAddresses st <> [] ->
  removeEmailField (List.length (emailAddresses st)) (addEmailField st) = st.
Proof.
  intros Hne. unfold removeEmailField, addEmailField.
  cbn [setEmailAddresses emailAddresses].
  assert (HL : (1 <? List.length (emailAddresses st ++ [[]]))%nat = true).
  { apply Nat.ltb_lt. rewrite length_app. cbn [List.length].
    destruct (emailAddresses st); [congruence | cbn [List.length]; lia]. }
  rewrite HL, dropIndexFrom_spec, Nat.sub_0_r by lia.
  rewrite firstn_app, Nat.sub_diag, firstn_all, firstn_O, app_nil_r.
  rewrite skipn_all2 by (rewrite length_app; cbn [List.length]; lia).
  rewrite app_nil_r. destruct st; reflexivity.
Qed.

Lemma remove_undoes_add_witness :
  emailAddresses Examples.twoFields <> [] /\
  removeEmailField 2 (addEmailField Examples.twoFields) = Examples.twoFields.
Proof.
  assert (Hne : emailAddresses Examples.twoFields <> []) by discriminate.
  split; [exact Hne|].
  exact (remove_undoes_add Examples.twoFields Hne).
Defined.

(** X14: updating a field inside the list stores the value at that index,
    leaves every other field and the number of fields as they were; the
    index one past the end appends; no other state is touched. *)
Theorem update_field_then_read
    (st : State) (index : nat) (value : jsstring) :
  (index <= List.length (emailAddresses st))%nat ->
  exists st',
    updateEmailAddress index value st = Some st' /\
    nth_error (emailAddresses st') index = Some value /\
    (forall j, j <> index ->
       nth_error (emailAddresses st') j = nth_error (emailAddresses st) j) /\
    List.length (emailAddresses st')
    = Nat.max (S index) (List.length (emailAddresses st)) /\
    emailTemplate st' = emailTemplate st /\
    sendStatus st' = sendStatus st.
Proof.
  intros Hle. unfold updateEmailAddress.
  rewrite (proj2 (Nat.leb_le _ _) Hle).
  eexists. split; [reflexivity|].
  cbn [setEmailAddresses emailAddresses emailTemplate sendStatus].
  set (l := emailAddresses st) in *.
  assert (Hf : List.length (firstn index l) = index)
    by (rewrite length_firstn; lia).
  split; [|split; [|split; [|split; reflexivity]]].
  - rewrite nth_error_app2 by lia. rewrite Hf, Nat.sub_diag. reflexivity.
  - intros j Hj. destruct (Nat.lt_ge_cases j index) as [Hlt|Hge].
    + rewrite nth_error_app1 by lia.
      rewrite nth_error_firstn.
      rewrite (proj2 (Nat.ltb_lt _ _) Hlt). reflexivity.
    + rewrite nth_error_app2 by lia. rewrite Hf.
      replace (j - index)%nat with (S (j - S index)) by lia.
      cbn [nth_error]. rewrite nth_error_skipn. f_equal. lia.
  - rewrite length_app, Hf. cbn [List.length]. rewrite length_skipn. lia.
Qed.

Lemma update_field_then_read_witness :
  (1 <= List.length (emailAddresses Examples.twoFields))%nat /\
  option_map emailAddresses
    (updateEmailAddress 1 (lit "bob@club.org") Examples.twoFields)
  = Some [lit "ann@club.org"; lit "bob@club.org"] /\
  exists st',
    updateEmailAddress 1 (lit "bob@club.org") Examples.twoFields = Some st' /\
    nth_error (emailAddresses st') 1 = Some (lit "bob@club.org").
Proof.
  split; [cbn; lia|]. split; [reflexivity|].
  destruct (update_field_then_read Examples.twoFields 1 (lit "bob@club.org"))
    as [st' [H1 [H2 _]]]; [cbn; lia|].
  exists st'. split; [exact H1 | exact H2].
Defined.

End EmailFieldFacts.

(* ================================================================= *)
(** * The schedule grid: lookup, dialog and stored bookings *)

Section GridFacts.
Import App AppGrid.

Lemma find_app_first {A} (f : A -> bool) l1 l2 :
  find f (l1 ++ l2)
  = match find f l1 with Some x => Some x | None => find f l2 end.
Proof.
  induction l1 as [|x l1 IH]; cbn [app find]; [reflexivity|].
  destruct (f x); [reflexivity | exact IH].
Qed.

Lemma find_filter_kept {A} (f g : A -> bool) l :
  (forall x, f x = true -> g x = true) ->
  find f (filter g l) = find f l.
Proof.
  intros H. induction l as [|x l IH]; cbn [filter find]; [reflexivity|].
  destruct (f x) eqn:Fx.
  - rewrite (H x Fx). cbn [find]. rewrite Fx. reflexivity.
  - destruct (g x); cbn [find]; rewrite ?Fx; exact IH.
Qed.

Lemma find_filter_dropped {A} (f g : A -> bool) l :
  (forall x, f x = true -> g x = false) ->
  find f (filter g l) = None.
Proof.
  intros H. induction l as [|x l IH]; cbn [filter]; [reflexivity|].
  destruct (g x) eqn:Gx; [|exact IH].
  cbn [find]. destruct (f x) eqn:Fx; [|exact IH].
  rewrite (H x Fx) in Gx. discriminate.
Qed.

Lemma isCell_spec e c t :
  isCell e c t = true <-> c = Editing.court e /\ t = Editing.timeSlot e.
Proof.
  unfold isCell. rewrite andb_true_iff, Z.eqb_eq, str_eqb_eq. tauto.
Qed.

Lemma find_withoutCell e c t bs :
  find (fun b => (court b =? c) && str_eqb (timeSlot b) t) (withoutCell e bs)
  = if isCell e c t then None
    else find (fun b => (court b =? c) && str_eqb (timeSlot b) t) bs.
Proof.
  unfold withoutCell. destruct (isCell e c t) eqn:E.
  - apply isCell_spec in E. destruct E as [-> ->].
    apply find_filter_dropped. intros b Hb. unfold atCell. rewrite Hb.
    reflexivity.
  - apply find_filter_kept. intros b Hb.
    apply andb_true_iff in Hb. destruct Hb as [Hc Ht].
    apply Z.eqb_eq in Hc. apply str_eqb_eq in Ht.
    unfold atCell. rewrite Hc, Ht.
    unfold isCell in E. rewrite E. reflexivity.
Qed.

Lemma getBooking_handleSaveBooking
    (now : Z) (st : State) (e : Editing.t) (c : Z) (t : jsstring) :
  editingBooking st = Some e ->
  getBooking (handleSaveBooking now st) c t
  = if isCell e c t then
      (if forallb isBlank (playerInputs st) then None
       else Some (savedBooking now st e))
    else getBooking st c t.
Proof.
  intros Ee. unfold getBooking.
  destruct (forallb isBlank (playerInputs st)) eqn:Hb.
  - rewrite (handleSaveBooking_blank _ _ _ Ee
               (proj2 (enteredPlayers_nil st) Hb)).
    cbn [closeDialog bookings]. rewrite find_withoutCell.
    destruct (isCell e c t); reflexivity.
  - assert (Hne : enteredPlayers st <> []).
    { intros Hnil. apply enteredPlayers_nil in Hnil. congruence. }
    rewrite (handleSaveBooking_entered _ _ _ Ee Hne).
    cbn [closeDialog bookings].
    rewrite find_app_first, find_withoutCell.
    fold (savedBooking now st e).
    destruct (isCell e c t) eqn:E.
    + apply isCell_spec in E. destruct E as [-> ->].
      cbn [find savedBooking court timeSlot].
      rewrite Z.eqb_refl, str_eqb_refl. reflexivity.
    + destruct (find _ (bookings st)); [reflexivity|].
      cbn [find savedBooking court timeSlot].
      assert (Hf : (Editing.court e =? c)
                   && str_eqb (Editing.timeSlot e) t = false).
      { destruct ((Editing.court e =? c)
                  && str_eqb (Editing.timeSlot e) t) eqn:F; [|reflexivity].
        apply andb_true_iff in F. destruct F as [F1 F2].
        apply Z.eqb_eq in F1. apply str_eqb_eq in F2. subst.
        unfold isCell in E. rewrite Z.eqb_refl, str_eqb_refl in E.
        discriminate. }
      rewrite Hf. reflexivity.
Qed.

(** X15: after a save, looking up the edited cell finds the booking just
    built from the non-blank inputs (or nothing, when every input was
    blank), and every other cell reads as before. *)
Theorem lookup_after_save
    (now : Z) (st : State) (e : Editing.t) (c : Z) (t : jsstring) :
  editingBooking st = Some e ->
  getBooking (handleSaveBooking now st) c t
  = if isCell e c t then
      (if forallb isBlank (playerInputs st) then None
       else Some (savedBooking now st e))
    else getBooking st c t.
Proof. apply getBooking_handleSaveBooking. Qed.

Lemma lookup_after_save_witness :
  editingBooking Examples.editingBookedCell <> None /\
  option_map players
    (getBooking (handleSaveBooking 1704412800000 Examples.editingBookedCell)
       1 (lit "5:00-6:00 PM"))
  = Some [lit "Ann"; lit "Bob"] /\
  option_map players
    (getBooking (handleSaveBooking 1704412800000 Examples.editingBookedCell)
       2 (lit "7:00-8:00 PM"))
  = option_map players
      (getBooking Examples.editingBookedCell 2 (lit "7:00-8:00 PM")).
Proof.
  split; [discriminate|]. split.
  - rewrite (lookup_after_save 1704412800000 Examples.editingBookedCell
               _ 1 (lit "5:00-6:00 PM") eq_refl).
    reflexivity.
  - rewrite (lookup_after_save 1704412800000 Examples.editingBookedCell
               _ 2 (lit "7:00-8:00 PM") eq_refl).
    reflexivity.
Defined.

(** X16: after a delete, the edited cell is empty and every other cell
    reads as before. *)
Theorem lookup_after_delete
    (st : State) (e : Editing.t) (c : Z) (t : jsstring) :
  editingBooking st = Some e ->
  getBooking (handleDeleteBooking st) c t
  = if isCell e c t then None else getBooking st c t.
Proof.
  intros Ee. unfold getBooking, handleDeleteBooking. rewrite Ee.
  cbn [closeDialog bookings]. apply find_withoutCell.
Qed.

Lemma lookup_after_delete_witness :
  editingBooking Examples.editingBookedCell <> None /\
  getBooking (handleDeleteBooking Examples.editingBookedCell)
    1 (lit "5:00-6:00 PM") = None /\
  getBooking (handleDeleteBooking Examples.editingBookedCell)
    2 (lit "7:00-8:00 PM")
  = getBooking Examples.editingBookedCell 2 (lit "7:00-8:00 PM").
Proof.
  split; [discriminate|]. split.
  - rewrite (lookup_after_delete Examples.editingBookedCell
               _ 1 (lit "5:00-6:00 PM") eq_refl).
    reflexivity.
  - rewrite (lookup_after_delete Examples.editingBookedCell
               _ 2 (lit "7:00-8:00 PM") eq_refl).
    reflexivity.
Defined.

Lemma filter_entered_padded ps k :
  forallb (fun p => negb (isBlank p)) ps = true ->
  filter (fun p => truthy (trim p)) (ps ++ repeat [] k) = ps.
Proof.
  intros H. rewrite filter_app.
  assert (H1 : filter (fun p => truthy (trim p)) ps = ps).
  { induction ps as [|p ps IH]; [reflexivity|].
    cbn [forallb] in H. apply andb_true_iff in H. destruct H as [Hp Hps].
    unfold isBlank in Hp. rewrite negb_involutive in Hp.
    cbn [filter]. rewrite Hp, IH by exact Hps. reflexivity. }
  assert (H2 : filter (fun p => truthy (trim p)) (repeat [] k) = []).
  { induction k as [|k IH]; [reflexivity | exact IH]. }
  rewrite H1, H2. apply app_nil_r.
Qed.

(** X17: a click on a date that is not a valid booking date changes
    nothing; on a valid date it opens the dialog on the clicked cell,
    leaves the stored bookings alone, and fills at least as many inputs
    as the match type needs, holding the stored players followed by
    blanks. *)
Theorem click_opens_dialog_on_valid_dates
    (LocalTZA : Z -> Z) (c : Z) (t : jsstring) (ty : BookingType)
    (st : State) :
  if isValidBookingDate LocalTZA (selectedDate st) then
    bookings (handleCellClick LocalTZA c t ty st) = bookings st /\
    selectedDate (handleCellClick LocalTZA c t ty st) = selectedDate st /\
    isDialogOpen (handleCellClick LocalTZA c t ty st) = true /\
    editingBooking (handleCellClick LocalTZA c t ty st)
    = Some {| Editing.court := c; Editing.timeSlot := t;
              Editing.type := ty |} /\
    (expectedLength ty
     <= List.length (playerInputs (handleCellClick LocalTZA c t ty st)))%nat /\
    exists blanks,
      playerInputs (handleCellClick LocalTZA c t ty st)
      = match getBooking st c t with
        | Some existing => players existing
        | None => []
        end ++ repeat [] blanks
  else handleCellClick LocalTZA c t ty st = st.
Proof.
  unfold handleCellClick.
  destruct (isValidBookingDate LocalTZA (selectedDate st)); cbn [negb];
    [|reflexivity].
  cbn [bookings selectedDate isDialogOpen editingBooking playerInputs].
  repeat split.
  - destruct (getBooking st c t) as [b|].
    + rewrite length_app, repeat_length. lia.
    + destruct ty; cbn; lia.
  - destruct (getBooking st c t) as [b|].
    + eexists. reflexivity.
    + destruct ty; [exists 2%nat | exists 4%nat]; reflexivity.
Qed.

Lemma storedClean_In bs b :
  storedClean bs -> In b bs ->
  players b <> [] /\ forallb (fun p => negb (isBlank p)) (players b) = true.
Proof.
  unfold storedClean. rewrite Forall_forall. intros H Hin. apply H. exact Hin.
Qed.

Lemma forallb_isBlank_false ps :
  ps <> [] -> forallb (fun p => negb (isBlank p)) ps = true ->
  forall k, forallb isBlank (ps ++ repeat [] k) = false.
Proof.
  intros Hne H k. destruct ps as [|p ps]; [congruence|].
  cbn [forallb] in H. apply andb_true_iff in H. destruct H as [Hp _].
  apply negb_true_iff in Hp. cbn [app forallb]. rewrite Hp. reflexivity.
Qed.

(** X18: opening the dialog on a booked cell and saving without touching
    the inputs keeps the players of every cell, the clicked one
    included, provided the stored bookings hold no blank names. *)
Theorem reopen_and_save_keeps_players
    (LocalTZA : Z -> Z) (now : Z) (st : State)
    (c : Z) (t : jsstring) (ty : BookingType) (b : Booking)
    (c' : Z) (t' : jsstring) :
  isValidBookingDate LocalTZA (selectedDate st) = true ->
  storedClean (bookings st) ->
  getBooking st c t = Some b ->
  option_map players
    (getBooking (handleSaveBooking now (handleCellClick LocalTZA c t ty st))
       c' t')
  = option_map players (getBooking st c' t').
Proof.
  intros Hv Hclean Hb.
  assert (Hin : In b (bookings st))
    by (unfold getBooking in Hb; apply find_some in Hb; tauto).
  destruct (storedClean_In _ _ Hclean Hin) as [Hne Hnb].
  set (e := {| Editing.court := c; Editing.timeSlot := t;
               Editing.type := ty |}).
  assert (Hclick : handleCellClick LocalTZA c t ty st
    = {| bookings := bookings st; selectedDate := selectedDate st;
         isDialogOpen := true; editingBooking := Some e;
         playerInputs :=
           players b
             ++ repeat [] (expectedLength ty - List.length (players b)) |}).
  { unfold handleCellClick. rewrite Hv, Hb. reflexivity. }
  rewrite (getBooking_handleSaveBooking now _ e c' t')
    by (rewrite Hclick; reflexivity).
  rewrite Hclick. cbn [playerInputs].
  rewrite (forallb_isBlank_false _ Hne Hnb).
  destruct (isCell e c' t') eqn:E.
  - apply isCell_spec in E. destruct E as [-> ->]. cbn [Editing.court
      Editing.timeSlot e]. rewrite Hb.
    cbn [option_map savedBooking players]. unfold enteredPlayers.
    cbn [playerInputs]. rewrite filter_entered_padded by exact Hnb.
    reflexivity.
  - reflexivity.
Qed.

Lemma reopen_and_save_keeps_players_witness :
  isValidBookingDate Examples.oneHourEast
    (selectedDate Examples.sundayGrid) = true /\
  storedClean (bookings Examples.sundayGrid) /\
  option_map players
    (getBooking
       (handleSaveBooking 1704412800000
          (handleCellClick Examples.oneHourEast 1 (lit "5:00-6:00 PM")
             singles Examples.sundayGrid))
       1 (lit "5:00-6:00 PM"))
  = Some [lit "Ann"; lit "Cy"].
Proof.
  assert (Hv : isValidBookingDate Examples.oneHourEast
                 (selectedDate Examples.sundayGrid) = true)
    by (vm_compute; reflexivity).
  assert (Hc : storedClean (bookings Examples.sundayGrid)).
  { repeat constructor. discriminate. }
  split; [exact Hv|]. split; [exact Hc|].
  rewrite (reopen_and_save_keeps_players Examples.oneHourEast 1704412800000
             Examples.sundayGrid 1 (lit "5:00-6:00 PM") singles
             _ 1 (lit "5:00-6:00 PM") Hv Hc eq_refl).
  reflexivity.
Defined.

Lemma storedClean_withoutCell e bs :
  storedClean bs -> storedClean (withoutCell e bs).
Proof.
  unfold storedClean, withoutCell. rewrite !Forall_forall.
  intros H b Hb. apply filter_In in Hb. apply H. tauto.
Qed.

(** X19: the stored bookings never hold a blank name or an empty players
    list: save, delete and clear-all keep that property. *)
Theorem stored_bookings_stay_clean (now : Z) (st : State) :
  storedClean (bookings st) ->
  storedClean (bookings (handleSaveBooking now st)) /\
  storedClean (bookings (handleDeleteBooking st)) /\
  storedClean (bookings (clearAllBookings st)).
Proof.
  intros Hc. split; [|split; [|constructor]].
  - destruct (editingBooking st) as [e|] eqn:Ee;
      [|unfold handleSaveBooking; rewrite Ee; exact Hc].
    destruct (forallb isBlank (playerInputs st)) eqn:Hb.
    + rewrite (handleSaveBooking_blank _ _ _ Ee
                 (proj2 (enteredPlayers_nil st) Hb)).
      apply storedClean_withoutCell. exact Hc.
    + assert (Hne : enteredPlayers st <> []).
      { intros Hnil. apply enteredPlayers_nil in Hnil. congruence. }
      rewrite (handleSaveBooking_entered _ _ _ Ee Hne).
      cbn [closeDialog bookings]. unfold storedClean.
      apply Forall_app. split; [apply storedClean_withoutCell; exact Hc|].
      constructor; [|constructor]. cbn [players].
      split; [exact Hne|]. unfold enteredPlayers.
      apply forallb_forall. intros p Hp. apply filter_In in Hp.
      destruct Hp as [_ Hp]. unfold isBlank. rewrite Hp. reflexivity.
  - unfold handleDeleteBooking.
    destruct (editingBooking st) as [e|]; [|exact Hc].
    apply storedClean_withoutCell. exact Hc.
Qed.

Lemma stored_bookings_stay_clean_witness :
  storedClean (bookings Examples.editingBookedCell) /\
  storedClean
    (bookings (handleSaveBooking 1704412800000 Examples.editingBookedCell)).
Proof.
  assert (Hc : storedClean (bookings Examples.editingBookedCell)).
  { repeat constructor; discriminate. }
  split; [exact Hc|].
  exact (proj1 (stored_bookings_stay_clean 1704412800000
                  Examples.editingBookedCell Hc)).
Defined.

End GridFacts.

(* ================================================================= *)
(** * Valid booking dates *)

Section BookingDates.
Import JsDateFields AppGrid.

Lemma year_estimate_low d :
  DayFromYear (1970 + (400 * d) / 146097 - 1) <= d.
Proof. unfold DayFromYear. Z.div_mod_to_equations. lia. Qed.

Lemma year_estimate_high d :
  d < DayFromYear (1970 + (400 * d) / 146097 + 2).
Proof. unfold DayFromYear. Z.div_mod_to_equations. lia. Qed.

(** [YearFromDay] meets the definition of YearFromTime: its year starts
    on or before the day, and the next year starts after it. *)
Lemma YearFromDay_spec d :
  DayFromYear (YearFromDay d) <= d < DayFromYear (YearFromDay d + 1).
Proof.
  unfold YearFromDay. cbv zeta.
  pose proof (year_estimate_low d) as Hlo.
  pose proof (year_estimate_high d) as Hhi.
  set (a := 1970 + (400 * d) / 146097) in *.
  destruct (DayFromYear (a + 1) <=? d) eqn:E1.
  - apply Z.leb_le in E1. replace (a + 1 + 1) with (a + 2) by lia. lia.
  - apply Z.leb_gt in E1. destruct (DayFromYear a <=? d) eqn:E2.
    + apply Z.leb_le in E2. lia.
    + apply Z.leb_gt in E2. replace (a - 1 + 1) with a by lia. lia.
Qed.

Lemma YearFromDay_unique d y :
  DayFromYear y <= d < DayFromYear (y + 1) -> YearFromDay d = y.
Proof.
  intros [Hlo Hhi]. pose proof (YearFromDay_spec d) as [Slo Shi].
  destruct (Z.lt_trichotomy (YearFromDay d) y) as [H|[H|H]]; [|exact H|].
  - pose proof (DayFromYear_mono (YearFromDay d + 1) y ltac:(lia)). lia.
  - pose proof (DayFromYear_mono (y + 1) (YearFromDay d) ltac:(lia)). lia.
Qed.

Lemma timeOfCivil_dayNumber c : timeOfCivil c = dayNumber c * msPerDay.
Proof. unfold timeOfCivil, dayNumber, dayInYear. f_equal. lia. Qed.

Lemma YearFromDay_dayNumber c :
  validCivil c = true -> YearFromDay (dayNumber c) = year c.
Proof.
  intros Hv. apply YearFromDay_unique.
  pose proof (dayInYear_bounds _ Hv). rewrite DayFromYear_succ.
  unfold dayNumber. lia.
Qed.

(** Decoding the day number of a valid date gives its month back. *)
Lemma MonthFromTime_dayNumber c t :
  validCivil c = true -> Day t = dayNumber c ->
  MonthFromTime t = month c - 1.
Proof.
  intros Hv Hd. unfold MonthFromTime, DayWithinYear, YearFromTime.
  rewrite Hd, (YearFromDay_dayNumber _ Hv). cbv zeta.
  replace (dayNumber c - DayFromYear (year c)) with (dayInYear c)
    by (unfold dayNumber; lia).
  apply validCivil_bounds in Hv. destruct Hv as [Hm Hday].
  unfold dayInYear. destruct c as [y m d]. cbn [year month day] in *.
  apply month_cases in Hm. unfold DaysBeforeMonth, DaysInMonth in *.
  destruct (InLeapYear y);
    repeat (destruct Hm as [Hm|Hm];
            [subst m;
             repeat match goal with
                    | |- context [?a <? ?b] =>
                        destruct (Z.ltb_spec a b); try lia
                    end|]);
    subst m;
    repeat match goal with
           | |- context [?a <? ?b] => destruct (Z.ltb_spec a b); try lia
           end.
Qed.

Lemma Day_local_east c off :
  0 <= off < msPerDay -> Day (timeOfCivil c + off) = dayNumber c.
Proof.
  intros H. rewrite timeOfCivil_dayNumber. unfold Day, msPerDay in *.
  Z.div_mod_to_equations. lia.
Qed.

Lemma Day_local_west c off :
  - msPerDay <= off < 0 -> Day (timeOfCivil c + off) = dayNumber c - 1.
Proof.
  intros H. rewrite timeOfCivil_dayNumber. unfold Day, msPerDay in *.
  Z.div_mod_to_equations. lia.
Qed.

Lemma isValidBookingDate_parsed LocalTZA s c :
  parseCivil s = Some c ->
  isValidBookingDate LocalTZA s
  = (WeekDay (LocalTime LocalTZA (timeOfCivil c)) =? 0)
    && inSeason (MonthFromTime (LocalTime LocalTZA (timeOfCivil c)) + 1).
Proof.
  intros Hp. unfold isValidBookingDate, getDay, getMonth, Date_value.
  rewrite Hp. cbn [option_map]. cbv zeta.
  destruct (WeekDay (LocalTime LocalTZA (timeOfCivil c)) =? 0); reflexivity.
Qed.

(** X20: where local time is UTC or ahead of it by less than a day, a
    date in the form YYYY-MM-DD is a valid booking date exactly when it
    is a Sunday of the months September to April. *)
Theorem valid_dates_at_or_east_of_utc
    (LocalTZA : Z -> Z) (s : jsstring) (c : civil) :
  parseCivil s = Some c ->
  0 <= LocalTZA (timeOfCivil c) < msPerDay ->
  isValidBookingDate LocalTZA s = (weekdayOf c =? 0) && inSeason (month c).
Proof.
  intros Hp Hoff. pose proof (parseCivil_valid _ _ Hp) as Hv.
  rewrite (isValidBookingDate_parsed _ _ _ Hp).
  pose proof (Day_local_east c _ Hoff) as Hd.
  unfold WeekDay, LocalTime.
  rewrite (MonthFromTime_dayNumber c _ Hv Hd), Hd.
  unfold weekdayOf. f_equal. f_equal. lia.
Qed.

Lemma valid_dates_at_or_east_of_utc_witness :
  0 <= Examples.oneHourEast 1704585600000 < msPerDay /\
  isValidBookingDate Examples.oneHourEast (lit "2024-01-07") = true /\
  isValidBookingDate Examples.oneHourEast (lit "2024-01-07")
  = (weekdayOf {| year := 2024; month := 1; day := 7 |} =? 0)
    && inSeason 1.
Proof.
  split; [unfold Examples.oneHourEast, msPerDay; lia|].
  split; [vm_compute; reflexivity|].
  apply (valid_dates_at_or_east_of_utc Examples.oneHourEast
           (lit "2024-01-07") {| year := 2024; month := 1; day := 7 |});
    [reflexivity | unfold Examples.oneHourEast, msPerDay; lia].
Defined.

(** X21: where local time is behind UTC, the check reads the day before:
    a date in the form YYYY-MM-DD is a valid booking date exactly when it
    is a Monday whose preceding day falls in September to April, so no
    Sunday is accepted. *)
Theorem valid_dates_west_of_utc
    (LocalTZA : Z -> Z) (s : jsstring) (c prev : civil) :
  parseCivil s = Some c ->
  - msPerDay <= LocalTZA (timeOfCivil c) < 0 ->
  validCivil prev = true ->
  dayNumber c = dayNumber prev + 1 ->
  isValidBookingDate LocalTZA s = (weekdayOf c =? 1) && inSeason (month prev).
Proof.
  intros Hp Hoff Hv Hprev.
  rewrite (isValidBookingDate_parsed _ _ _ Hp).
  pose proof (Day_local_west c _ Hoff) as Hd.
  assert (Hd' : Day (LocalTime LocalTZA (timeOfCivil c)) = dayNumber prev)
    by (unfold LocalTime; lia).
  unfold WeekDay.
  rewrite (MonthFromTime_dayNumber prev _ Hv Hd'), Hd'.
  unfold weekdayOf. rewrite Hprev.
  replace (month prev - 1 + 1) with (month prev) by lia.
  f_equal.
  destruct ((dayNumber prev + 4) mod 7 =? 0) eqn:E1;
    destruct ((dayNumber prev + 1 + 4) mod 7 =? 1) eqn:E2;
    try reflexivity;
    rewrite ?Z.eqb_eq, ?Z.eqb_neq in *;
    exfalso; Z.div_mod_to_equations; lia.
Qed.

Lemma valid_dates_west_of_utc_witness :
  - msPerDay <= Examples.fiveHoursWest 1704672000000 < 0 /\
  isValidBookingDate Examples.fiveHoursWest (lit "2024-01-08") = true /\
  isValidBookingDate Examples.fiveHoursWest (lit "2024-01-07") = false /\
  isValidBookingDate Examples.fiveHoursWest (lit "2024-01-08")
  = (weekdayOf {| year := 2024; month := 1; day := 8 |} =? 1)
    && inSeason 1.
Proof.
  split; [unfold Examples.fiveHoursWest, msPerDay; lia|].
  split; [vm_compute; reflexivity|].
  split; [vm_compute; reflexivity|].
  apply (valid_dates_west_of_utc Examples.fiveHoursWest
           (lit "2024-01-08") {| year := 2024; month := 1; day := 8 |}
           {| year := 2024; month := 1; day := 7 |});
    [reflexivity | unfold Examples.fiveHoursWest, msPerDay; lia
    | reflexivity | reflexivity].
Defined.

End BookingDates.
